(** * VSFBookingBot: the coordination core, embedded and verified

    A shallow embedding of the retry / circuit-breaker engine
    ([retry_manager.py]), the slot prioritization engine
    ([priority_manager.py]), the component probe of the health monitor
    ([health_check.py]) and the per-slot lock table of the orchestrator
    ([VSFBookingBot.py]).

    Conventions used throughout.
    - Python [int] is [Z]; Python [float] quantities (delays, clock
      readings) are exact rationals [Q]: rounding is not modelled.
    - A [datetime] is the integer number of microseconds since the epoch
      (naive datetimes are totally ordered by it).
    - Whatever the code obtains from its surroundings (the clock, the random
      generator, the awaited operation, HTTP probes) is an explicit oracle
      argument; what it does to its surroundings (sleeping, reporting to the
      health monitor) is appended to an event trace.
    - Logging and Prometheus metrics have no influence on control flow and
      are left out. *)

From Stdlib Require Import ZArith QArith Qpower Qminmax Lia Lqa List Sorting.Sorted Permutation.
From stdpp Require Import gmap strings list pretty.
Import ListNotations.

Open Scope Z_scope.

(** ** Python's [sorted(iterable, key=...)]

    [sorted] is a stable sort that compares keys with [<] only.  It is
    modelled by a stable insertion sort: elements are inserted from the
    right, each one in front of the first element whose key is not strictly
    smaller. *)
Section PySorted.
Context {A K : Type} (key : A -> K) (lt : K -> K -> bool).

Fixpoint insort (x : A) (l : list A) : list A :=
  match l with
  | [] => [x]
  | y :: l' => if lt (key y) (key x) then y :: insort x l' else x :: l
  end.

Definition sorted (l : list A) : list A := foldr insort [] l.

(** [a] may stand before [b]: [key b < key a] is false. *)
Definition not_after (a b : A) : Prop := lt (key b) (key a) = false.
End PySorted.

(** ** Python exceptions and results

    Only the distinctions the handlers of this program make are kept:
    [except (asyncio.TimeoutError, ClientError, ServerTimeoutError)] against
    [except Exception], and the program's own [RetryError]. *)
#[warnings="-register-all"]
Inductive exn :=
| TimeoutError
| ClientError (msg : string)
| OtherException (cls msg : string)
| RetryError (message : string) (last_error : option exn) (attempts : Z).

Inductive result (A : Type) :=
| Ok (a : A)
| Raise (e : exn).
Arguments Ok {A} a.
Arguments Raise {A} e.

(** What a run does to its surroundings, in order. *)
Inductive event :=
| EvSecurity
| EvCall
| EvSleep (d : Q)
| EvHealthSuccess (component : string)
| EvHealthError (component error : string).

Definition is_call (ev : event) : bool :=
  match ev with EvCall => true | _ => false end.

Definition is_sleep (ev : event) : bool :=
  match ev with EvSleep _ => true | _ => false end.


(** [a < b] on rationals, as a boolean. *)
Definition Qltb (a b : Q) : bool := negb (Qle_bool b a).

(** Python's [min(a, b)]: [a] unless [b < a]. *)
Definition py_min (a b : Q) : Q := if Qltb b a then b else a.

Module RetryManager.

Inductive CircuitBreakerState := CLOSED | OPEN | HALF_OPEN.

#[global] Instance breaker_state_eq_dec : EqDecision CircuitBreakerState.
Proof. solve_decision. Defined.

Record CircuitBreaker := mkBreaker {
  failure_threshold : Z;
  reset_timeout : Q;
  failures : Z;
  state : CircuitBreakerState;
  last_failure_time : option Q
}.

(** [CircuitBreaker.__init__]; the arguments are the two entries of the
    options dictionary, [None] when the key is absent
    ([options.get('failure_threshold', 5)], [options.get('reset_timeout', 30)]). *)
Definition new_breaker (threshold : option Z) (timeout : option Q) : CircuitBreaker :=
  mkBreaker (default 5 threshold) (default 30%Q timeout) 0 CLOSED None.

Definition record_success (cb : CircuitBreaker) : CircuitBreaker :=
  mkBreaker (failure_threshold cb) (reset_timeout cb) 0 CLOSED (last_failure_time cb).

(** [now] is the value of [time.time()]. *)
Definition record_failure (now : Q) (cb : CircuitBreaker) : CircuitBreaker :=
  let failures' := failures cb + 1 in
  mkBreaker (failure_threshold cb) (reset_timeout cb) failures'
    (if failure_threshold cb <=? failures' then OPEN else state cb)
    (Some now).

(** The conjunct [self.last_failure_time and (time.time() -
    self.last_failure_time > self.reset_timeout)]: [None] and [0.0] are
    falsy. *)
Definition timeout_elapsed (now : Q) (cb : CircuitBreaker) : bool :=
  match last_failure_time cb with
  | None => false
  | Some t => negb (Qeq_bool t 0) && Qltb (reset_timeout cb) (now - t)
  end.

Definition can_request (now : Q) (cb : CircuitBreaker) : bool * CircuitBreaker :=
  if bool_decide (state cb = CLOSED) then (true, cb)
  else if bool_decide (state cb = OPEN) && timeout_elapsed now cb then
    (true, mkBreaker (failure_threshold cb) (reset_timeout cb) (failures cb)
             HALF_OPEN (last_failure_time cb))
  else (bool_decide (state cb <> OPEN), cb).

(** The merged dictionary [{**self.config, **(options or {})}], restricted
    to the keys [retry] and [calculate_delay] read. *)
Record RetryOptions := mkOptions {
  max_retries : Z;
  timeout : Q;
  retry_strategy : string;
  base_delay : Q;
  max_delay : Q
}.

Definition fibonacci (n : Z) : Z :=
  if n <=? 1 then 1
  else snd (Nat.iter (Z.to_nat (n - 2)) (fun '(a, b) => (b, a + b)) (1, 1)).

(** The [delay] of [calculate_delay] before jitter is added. *)
Definition pre_jitter_delay (attempt : Z) (options : RetryOptions) : Q :=
  if String.eqb (retry_strategy options) "linear" then
    (base_delay options * inject_Z attempt)%Q
  else if String.eqb (retry_strategy options) "exponential" then
    (base_delay options * 2 ^ (attempt - 1))%Q
  else if String.eqb (retry_strategy options) "fibonacci" then
    (inject_Z (fibonacci attempt) * base_delay options)%Q
  else base_delay options.

(** [jitter] is the value drawn by [random.uniform(0, 0.1 * delay)]. *)
Definition calculate_delay (attempt : Z) (options : RetryOptions) (jitter : Q) : Q :=
  let delay := pre_jitter_delay attempt options in
  let delay := (delay + jitter)%Q in
  py_min delay (max_delay options).

(** Attribute lookup on a [RetryManager] instance: the attributes set by
    [__init__] and the methods of the class body. *)
Definition RetryManager_attributes : list string :=
  ["config"; "health_check"; "security_proof"; "logger"; "circuit_breaker";
   "retry_counter"; "retry_latency"; "retry"; "calculate_delay"; "fibonacci";
   "perform_with_retry"; "initialize"; "cleanup"; "__aenter__"; "__aexit__"]%string.

Definition getattr_RetryManager (name : string) : result unit :=
  if bool_decide (name ∈ RetryManager_attributes) then Ok tt
  else Raise (OtherException "AttributeError"
                ("'RetryManager' object has no attribute '" +:+ name +:+ "'")).

Section Retry.
Context {V : Type}.

(** The surroundings of one [retry] call.  Every iteration of the loop
    either returns or increments [attempts], so the value of [attempts]
    at the start of an iteration identifies it. *)
Record Env := mkEnv {
  time_can_request : Z -> Q;       (* time.time() inside can_request *)
  time_record_failure : Z -> Q;    (* time.time() inside record_failure *)
  security : Z -> option exn;      (* apply_security_measures(): None = returned *)
  fn : Z -> result V;              (* wait_for(fn(), timeout): returned or raised *)
  jitter : Z -> Q;                 (* the draw of random.uniform *)
  str : option exn -> string       (* str(last_error) *)
}.

Variable env : Env.
Variable operation_name : string.
Variable retry_options : RetryOptions.

Definition is_network_error (e : exn) : bool :=
  match e with
  | TimeoutError | ClientError _ => true
  | _ => false
  end.


(** The body of the [try] block.  Reporting a success to the health monitor
    is taken to return. *)
Definition attempt (attempts : Z) (cb : CircuitBreaker) (tr : list event)
  : result V * CircuitBreaker * list event :=
  let '(allowed, cb) := can_request (time_can_request env attempts) cb in
  if negb allowed then
    (Raise (RetryError "Circuit breaker is open"
              (Some (OtherException "Exception" "Circuit breaker open")) attempts),
     cb, tr)
  else
    match security env attempts with
    | Some e => (Raise e, cb, tr ++ [EvSecurity])
    | None =>
        match fn env attempts with
        | Raise e => (Raise e, cb, tr ++ [EvSecurity; EvCall])
        | Ok v =>
            (Ok v, record_success cb,
             tr ++ [EvSecurity; EvCall; EvHealthSuccess operation_name])
        end
    end.

(** The code after the loop. *)
Definition exhausted (attempts : Z) (last_error : option exn)
    (cb : CircuitBreaker) (tr : list event)
  : result V * CircuitBreaker * list event :=
  (Raise (RetryError ("Max retries reached (" +:+ pretty (max_retries retry_options) +:+ ")")
            last_error attempts),
   cb, tr ++ [EvHealthError operation_name (str env last_error)]).

(** The [while] loop; [None] only when [fuel] runs out. *)
Fixpoint retry_loop (fuel : nat) (attempts : Z) (last_error : option exn)
    (cb : CircuitBreaker) (tr : list event)
  : option (result V * CircuitBreaker * list event) :=
  match fuel with
  | O => None
  | S fuel' =>
      if attempts <? max_retries retry_options then
        match attempt attempts cb tr with
        | (Ok v, cb, tr) => Some (Ok v, cb, tr)
        | (Raise e, cb, tr) =>
            if is_network_error e then
              let attempts' := attempts + 1 in
              let cb := record_failure (time_record_failure env attempts) cb in
              retry_loop fuel' attempts' (Some e) cb tr
            else
              let attempts' := attempts + 1 in
              let cb := record_failure (time_record_failure env attempts) cb in
              let retry_delay := calculate_delay attempts' retry_options (jitter env attempts) in
              if max_retries retry_options <=? attempts' then
                Some (exhausted attempts' (Some e) cb tr)
              else
                retry_loop fuel' attempts' (Some e) cb (tr ++ [EvSleep retry_delay])
        end
      else Some (exhausted attempts last_error cb tr)
  end.

(** [retry(fn, operation_name, options)] on breaker [cb]; the loop runs
    at most [max_retries] times, so this much fuel is never used up. *)
Definition retry (cb : CircuitBreaker)
  : option (result V * CircuitBreaker * list event) :=
  retry_loop (S (Z.to_nat (max_retries retry_options))) 0 None cb [].
End Retry.


(** The Fibonacci numbers in the usual numbering: F(1) = F(2) = 1. *)
Fixpoint usual_fib (n : nat) : Z :=
  match n with
  | O => 0
  | S m => match m with O => 1 | S k => usual_fib m + usual_fib k end
  end.


(** Two environments used as examples: an operation that always raises, and
    a run that starts one second after the breaker was opened at time 100. *)
Definition failing_env : Env (V := Z) :=
  mkEnv (fun i => inject_Z (101 + i)) (fun i => inject_Z (101 + i)) (fun _ => None)
        (fun _ => Raise (OtherException "Exception" "boom"))
        (fun _ => 1 # 4)%Q (fun _ => "boom"%string).

Definition refused_env : Env (V := Z) :=
  mkEnv (fun i => inject_Z (101 + i)) (fun i => inject_Z (101 + i)) (fun _ => None)
        (fun _ => Ok 42) (fun _ => 0%Q) (fun _ => "circuit open"%string).

Definition three_attempts : RetryOptions := mkOptions 3 30 "exponential" 5 60.

(** A run of [record_failure] calls, one per clock reading. *)
Definition record_failures (times : list Q) (cb : CircuitBreaker) : CircuitBreaker :=
  foldl (fun cb now => record_failure now cb) cb times.

(** The three methods of a breaker, as calls made on it over time. *)
Inductive breaker_call :=
| CallSuccess                (* record_success() *)
| CallFailure (now : Q)      (* record_failure() at clock reading [now] *)
| CallRequest (now : Q).     (* can_request() at clock reading [now] *)

Definition breaker_step (cb : CircuitBreaker) (c : breaker_call) : CircuitBreaker :=
  match c with
  | CallSuccess => record_success cb
  | CallFailure now => record_failure now cb
  | CallRequest now => (can_request now cb).2
  end.

Definition breaker_run (calls : list breaker_call) (cb : CircuitBreaker) : CircuitBreaker :=
  foldl breaker_step cb calls.

(** What every breaker that started new satisfies. *)
Definition breaker_sound (cb : CircuitBreaker) : Prop :=
  0 <= failures cb /\
  match state cb with
  | CLOSED => failures cb = 0 \/ failures cb < failure_threshold cb
  | _ => failure_threshold cb <= failures cb /\ 1 <= failures cb /\
         is_Some (last_failure_time cb)
  end.

(** Events that tell the health monitor something. *)
Definition is_health (ev : event) : bool :=
  match ev with EvHealthSuccess _ | EvHealthError _ _ => true | _ => false end.

(** A sleep, if the event is one, lasts at most [longest]. *)
Definition sleep_within (longest : Q) (ev : event) : Prop :=
  match ev with EvSleep d => (d <= longest)%Q | _ => True end.


Definition timing_out_env : Env (V := Z) :=
  mkEnv (fun i => inject_Z (101 + i)) (fun i => inject_Z (101 + i)) (fun _ => None)
        (fun _ => Raise TimeoutError) (fun _ => 0%Q) (fun _ => "timeout"%string).

End RetryManager.

Module PriorityManager.

(** [class AngolaToPortugalVisaType(Enum)].  A slot's [type] attribute is
    not checked on construction, so it may hold something that is not a
    member of the enumeration; [UNRECOGNIZED] stands for any such value. *)
Inductive AngolaToPortugalVisaType :=
| NACIONAL
| SCHENGEN
| UNRECOGNIZED (label : string).

#[global] Instance visa_eq_dec : EqDecision AngolaToPortugalVisaType.
Proof. solve_decision. Defined.

(** [@dataclass class Slot]. *)
Record Slot := mkSlot {
  slot_id : string;
  date : Z;
  type : AngolaToPortugalVisaType;
  available_spots : Z
}.

(** Comparison [<] of Python tuples [(bool, bool, datetime)]: the first
    position at which the tuples differ decides; [False < True]. *)
Definition bool_lt (a b : bool) : bool := negb a && b.

Definition tuple_lt (k1 k2 : bool * bool * Z) : bool :=
  let '(a1, b1, d1) := k1 in
  let '(a2, b2, d2) := k2 in
  if negb (Bool.eqb a1 a2) then bool_lt a1 a2
  else if negb (Bool.eqb b1 b2) then bool_lt b1 b2
  else d1 <? d2.

(** The [key=lambda slot: (...)] of [apply_prioritization_strategy]. *)
Definition priority_key (slot : Slot) : bool * bool * Z :=
  (bool_decide (type slot <> NACIONAL),
   bool_decide (type slot <> SCHENGEN),
   date slot).

Definition apply_prioritization_strategy (slots : list Slot) : list Slot :=
  sorted priority_key tuple_lt slots.

(** [validate_slots].  [clock i] is what [datetime.now()] returns while the
    element at position [i] is examined (the clock is read once per slot
    that reaches the date test).  Each [continue] is a recursive call that
    leaves [valid_slots] as it is.  The [isinstance(slot, Slot)] guard
    always passes on a [List[Slot]]. *)
Fixpoint validate_loop (clock : nat -> Z) (i : nat) (slots valid_slots : list Slot)
  : list Slot :=
  match slots with
  | [] => valid_slots
  | slot :: rest =>
      if bool_decide (type slot ∉ [NACIONAL; SCHENGEN]) then
        validate_loop clock (S i) rest valid_slots
      else if available_spots slot <=? 0 then
        validate_loop clock (S i) rest valid_slots
      else if date slot <? clock i then
        validate_loop clock (S i) rest valid_slots
      else
        validate_loop clock (S i) rest (valid_slots ++ [slot])
  end.

Definition validate_slots (clock : nat -> Z) (slots : list Slot) : list Slot :=
  validate_loop clock 0 slots [].

(** What the specification calls a valid slot, at clock reading [now]. *)
Definition slot_ok (now : Z) (s : Slot) : Prop :=
  (type s = NACIONAL \/ type s = SCHENGEN) /\ 0 < available_spots s /\ now <= date s.

#[global] Instance slot_ok_dec now s : Decision (slot_ok now s).
Proof. unfold slot_ok. apply _. Defined.

(** [@dataclass class PrioritizationEvent]. *)
Record PrioritizationEvent := mkEvent {
  strategy : string;
  input_count : nat;
  output_count : nat;
  execution_time : Q;
  timestamp : Z
}.

(** The surroundings of one call of the entry point. *)
Record Env := mkEnv {
  security : option exn;     (* apply_security_measures(): None = returned *)
  clock : nat -> Z;          (* datetime.now() inside validate_slots *)
  start_time : Z;            (* the two datetime.now() of the entry point *)
  end_time : Z;
  str : exn -> string        (* str(error) *)
}.

(** The body of the [try] block, on the history and the trace so far. *)
Definition try_body (env : Env) (slots : list Slot)
    (history : list PrioritizationEvent) (tr : list event)
  : result (list Slot) * list PrioritizationEvent * list event :=
  match security env with
  | Some e => (Raise e, history, tr ++ [EvSecurity])
  | None =>
      let validated_slots := validate_slots (clock env) slots in
      let prioritized_slots := apply_prioritization_strategy validated_slots in
      let execution_time := (inject_Z (end_time env - start_time env) / 1000000)%Q in
      let event :=
        mkEvent "angola_to_portugal_standard" (length slots) (length prioritized_slots)
          execution_time (end_time env) in
      (Ok prioritized_slots, history ++ [event],
       tr ++ [EvSecurity; EvHealthSuccess "prioritization"])
  end.

(** [handle_prioritization_error]: the method [handle_error] is looked up on
    the retry manager before the health monitor is told. *)
Definition handle_prioritization_error (env : Env) (error : exn) (tr : list event)
  : result unit * list event :=
  match RetryManager.getattr_RetryManager "handle_error" with
  | Raise e => (Raise e, tr)
  | Ok _ => (Ok tt, tr ++ [EvHealthError "prioritization" (str env error)])
  end.

Definition prioritize_slots_for_slot_checker (env : Env) (slots : list Slot)
    (history : list PrioritizationEvent) (tr : list event)
  : result (list Slot) * list PrioritizationEvent * list event :=
  match try_body env slots history tr with
  | (Ok prioritized_slots, history, tr) => (Ok prioritized_slots, history, tr)
  | (Raise e, history, tr) =>
      match handle_prioritization_error env e tr with
      | (Raise e', tr) => (Raise e', history, tr)
      | (Ok _, tr) => (Ok [], history, tr)
      end
  end.

(** An environment in which the security hook times out. *)
Definition hook_fails : Env :=
  mkEnv (Some TimeoutError) (fun _ => 100) 0 0 (fun _ => "timeout"%string).

(** Python's [min(iterable, key=...)] and [max(iterable, key=...)]: the
    first element with the smallest (largest) key; [None] stands for the
    [ValueError] raised on an empty sequence. *)
Definition min_by {A : Type} (key : A -> Z) (l : list A) : option A :=
  match l with
  | [] => None
  | x :: rest => Some (foldl (fun best y => if key y <? key best then y else best) x rest)
  end.

Definition max_by {A : Type} (key : A -> Z) (l : list A) : option A :=
  match l with
  | [] => None
  | x :: rest => Some (foldl (fun best y => if key best <? key y then y else best) x rest)
  end.

(** The dictionary returned by [analyze_slot_trends]. *)
Record SlotTrends := mkTrends {
  total_slots : nat;
  nacional_slots : nat;
  schengen_slots : nat;
  earliest_slot_date : string;
  latest_slot_date : string;
  average_slots_per_day : Q
}.

(** [timedelta.days] of a difference given in microseconds. *)
Definition days (microseconds : Z) : Z := microseconds / 86400000000.

(** [analyze_slot_trends]; [isoformat] renders a [datetime]. *)
Definition analyze_slot_trends (isoformat : Z -> string) (slots : list Slot)
  : result SlotTrends :=
  let nacional_count := length (filter (fun slot => type slot = NACIONAL) slots) in
  let schengen_count := length (filter (fun slot => type slot = SCHENGEN) slots) in
  match min_by date slots with
  | None => Raise (OtherException "ValueError" "min() arg is an empty sequence")
  | Some earliest_slot =>
      match max_by date slots with
      | None => Raise (OtherException "ValueError" "max() arg is an empty sequence")
      | Some latest_slot =>
          Ok (mkTrends (length slots) nacional_count schengen_count
                (isoformat (date earliest_slot)) (isoformat (date latest_slot))
                (inject_Z (Z.of_nat (length slots))
                 / inject_Z (days (date latest_slot - date earliest_slot) + 1))%Q)
      end
  end.

(** The dictionary returned by [get_prioritization_stats]. *)
Record PrioritizationStats := mkStats {
  total_prioritizations : nat;
  average_execution_time : Q;
  last_prioritization : option PrioritizationEvent
}.

Definition get_prioritization_stats (history : list PrioritizationEvent)
  : PrioritizationStats :=
  let total := length history in
  if Nat.eqb total 0 then mkStats 0 0 None
  else
    mkStats total
      (foldl (fun acc event => acc + execution_time event) 0 history
       / inject_Z (Z.of_nat total))%Q
      (last history).

(** An environment in which the security hook returns. *)
Definition hook_returns : Env :=
  mkEnv None (fun _ => 100) 1000000 3000000 (fun _ => "error"%string).

End PriorityManager.

Module HealthCheck.

Inductive HealthStatus := HEALTHY | DEGRADED | CRITICAL | UNKNOWN.

(** [@dataclass class ComponentHealth]. *)
Record ComponentHealth := mkHealth {
  status : HealthStatus;
  response_time : Q;
  last_checked : string;
  error : option string
}.

(** What [session.get(url, timeout=...)] does for one endpoint. *)
Inductive probe_outcome :=
| Responded (status_code : Z) (response_time : Q)
| TimedOut
| Failed (error : string).

(** The two dictionaries [check_components] writes. *)
Record Monitor := mkMonitor {
  error_counts : gmap string Z;
  components : gmap string ComponentHealth
}.

(** [self.error_counts.get(component, 0) + 1]. *)
Definition bumped (component : string) (m : Monitor) : Z :=
  default 0 (error_counts m !! component) + 1.

Definition handle_component_error (now : string) (component error : string)
    (m : Monitor) : Monitor :=
  mkMonitor (<[component := bumped component m]> (error_counts m))
            (<[component := mkHealth CRITICAL (-1) now (Some error)]> (components m)).

(** One iteration of the loop of [check_components]; [now] is
    [datetime.now().isoformat()]. *)
Definition check_component (now : string) (component : string)
    (reply : probe_outcome) (m : Monitor) : Monitor :=
  match reply with
  | Responded status_code response_time =>
      let '(status, counts) :=
        if status_code =? 200 then (HEALTHY, <[component := 0]> (error_counts m))
        else (DEGRADED, <[component := bumped component m]> (error_counts m)) in
      mkMonitor counts
        (<[component := mkHealth status response_time now None]> (components m))
  | TimedOut => handle_component_error now component "Timeout" m
  | Failed error => handle_component_error now component error m
  end.

(** [endpoints] is [self.config['health_check_endpoints'].items()], in
    dictionary order. *)
Definition check_components (probe : string -> string -> probe_outcome)
    (now : string -> string) (endpoints : list (string * string)) (m : Monitor)
  : Monitor :=
  foldl (fun m '(component, url) =>
           check_component (now component) component (probe component url) m)
        m endpoints.

(** Three endpoints used as an example: one answers 200, one answers 503,
    one times out. *)
Definition three_endpoints : list (string * string) :=
  [("api", "http://api/health"); ("db", "http://db/health"); ("auth", "http://auth/health")]%string.

Definition three_probes (component url : string) : probe_outcome :=
  if String.eqb component "api" then Responded 200 (1 # 2)
  else if String.eqb component "db" then Responded 503 (1 # 4)
  else TimedOut.

#[global] Instance health_status_eq_dec : EqDecision HealthStatus.
Proof. solve_decision. Defined.

(** [@dataclass class SystemHealth]. *)
Record SystemHealth := mkSystem {
  cpu_usage : Q;
  memory_usage : Q;
  disk_usage : Q;
  network_latency : Q;
  uptime : Q
}.

(** [self.config['health_check_thresholds']]. *)
Record Thresholds := mkThresholds {
  cpu_threshold : Q;
  memory_threshold : Q;
  disk_threshold : Q;
  error_rate_threshold : Q
}.

(** [sum(self.error_counts.values()) / (self.total_checks *
    len(self.error_counts)) if self.error_counts else 0]. *)
Definition error_rate (total_checks : Z) (m : Monitor) : result Q :=
  if decide (error_counts m = ∅) then Ok 0%Q
  else
    let total := map_fold (fun _ count acc => count + acc) 0 (error_counts m) in
    let divisor := total_checks * Z.of_nat (size (error_counts m)) in
    if divisor =? 0 then Raise (OtherException "ZeroDivisionError" "division by zero")
    else Ok (inject_Z total / inject_Z divisor)%Q.

(** The [elif] and [else] branches of [update_overall_health]. *)
Definition critical_or_degraded (m : Monitor) : HealthStatus :=
  if bool_decide (map_Exists (fun _ comp => status comp = CRITICAL) (components m))
  then CRITICAL else DEGRADED.

(** [update_overall_health]: the new value of [health_status['overall']].
    [system] is [health_status['system']], [None] before the first
    [check_system_health]; the conjunction is evaluated left to right and
    stops at its first false member. *)
Definition update_overall_health (thresholds : Thresholds) (total_checks : Z)
    (system : option SystemHealth) (m : Monitor) : result HealthStatus :=
  match error_rate total_checks m with
  | Raise e => Raise e
  | Ok rate =>
      if bool_decide (map_Forall (fun _ comp => status comp = HEALTHY) (components m))
         && Qltb rate (error_rate_threshold thresholds)
      then
        match system with
        | None => Raise (OtherException "AttributeError"
                           "'NoneType' object has no attribute 'cpu_usage'")
        | Some sys =>
            if Qltb (cpu_usage sys) (cpu_threshold thresholds)
               && Qltb (memory_usage sys) (memory_threshold thresholds)
               && Qltb (disk_usage sys) (disk_threshold thresholds)
            then Ok HEALTHY
            else Ok (critical_or_degraded m)
        end
      else Ok (critical_or_degraded m)
  end.


Definition record_success (component : string) (m : Monitor) : Monitor :=
  mkMonitor (<[component := 0]> (error_counts m)) (components m).



(** Repeated probes of one component: each reply with its time stamp. *)
Definition check_repeatedly (component : string) (replies : list (string * probe_outcome))
    (m : Monitor) : Monitor :=
  foldl (fun m '(now, reply) => check_component now component reply m) m replies.

Definition is_200 (reply : probe_outcome) : bool :=
  match reply with Responded status_code _ => status_code =? 200 | _ => false end.






(** Example values: the thresholds of the shipped configuration, an idle
    machine, and a monitor with one healthy and one critical component. *)
Definition usual_thresholds : Thresholds :=
  mkThresholds (9 # 10) (9 # 10) (9 # 10) (1 # 10).

Definition idle_system : SystemHealth := mkSystem (1 # 10) (2 # 10) (3 # 10) (1 # 100) 1000.

Definition degraded_monitor : Monitor :=
  mkMonitor {[ "api"%string := 0; "db"%string := 3 ]}
            {[ "api"%string := mkHealth HEALTHY (1 # 2) "t" None;
               "db"%string := mkHealth CRITICAL (-1) "t" (Some "Timeout"%string) ]}.

End HealthCheck.

Module VFSBookingBot.

(** [self.booking_locks]: slot id to [asyncio.Lock] object.  A lock object
    is identified by the order of its creation; [next_lock] counts the
    [asyncio.Lock()] calls made so far. *)
Record LockTable := mkTable {
  booking_locks : gmap string nat;
  next_lock : nat
}.

(** [get_booking_lock]: the lock returned, and the table afterwards. *)
Definition get_booking_lock (slot_id : string) (t : LockTable) : option nat * LockTable :=
  let t :=
    if bool_decide (booking_locks t !! slot_id = None) then
      mkTable (<[slot_id := next_lock t]> (booking_locks t)) (S (next_lock t))
    else t in
  (booking_locks t !! slot_id, t).

(** Every lock in the table was created before [next_lock], and no lock
    serves two slot ids. *)
Definition well_formed (t : LockTable) : Prop :=
  (forall s l, booking_locks t !! s = Some l -> (l < next_lock t)%nat) /\
  (forall s1 s2 l, booking_locks t !! s1 = Some l -> booking_locks t !! s2 = Some l -> s1 = s2).

(** A run of [get_booking_lock] calls, one per slot id. *)
Definition get_booking_locks (slot_ids : list string) (t : LockTable) : LockTable :=
  foldl (fun t slot_id => (get_booking_lock slot_id t).2) t slot_ids.

(** The values a configuration entry can hold, as far as [validate_config]
    tells them apart. *)
Inductive pyval :=
| PyNone
| PyBool (b : bool)
| PyInt (n : Z)
| PyFloat (q : Q)
| PyStr (s : string).

Definition required_keys : list string :=
  ["headless"; "user_agent"; "vfs_username"; "vfs_password";
   "rate_limit_per_second"; "check_interval"; "max_retries";
   "retry_delay"; "health_check_interval"; "log_level"]%string.

(** The loop over [required_keys]: the first key that is not in the
    configuration, if any. *)
Fixpoint first_missing (config : gmap string pyval) (keys : list string) : option string :=
  match keys with
  | [] => None
  | key :: keys =>
      if bool_decide (config !! key = None) then Some key else first_missing config keys
  end.

(** [isinstance(v, int) and not v <= 0]; [bool] is a subclass of [int],
    with [True] counting as 1 and [False] as 0. *)
Definition positive_int (v : pyval) : bool :=
  match v with
  | PyInt n => negb (n <=? 0)
  | PyBool b => b
  | _ => false
  end.

Definition validate_config (config : gmap string pyval) : result unit :=
  match first_missing config required_keys with
  | Some key =>
      Raise (OtherException "ValueError" ("Missing required configuration key: " +:+ key))
  | None =>
      match config !! "rate_limit_per_second"%string with
      | None => Raise (OtherException "KeyError" "'rate_limit_per_second'")
      | Some rate =>
          if negb (positive_int rate) then
            Raise (OtherException "ValueError"
                     "rate_limit_per_second must be a positive integer")
          else
            match config !! "check_interval"%string with
            | None => Raise (OtherException "KeyError" "'check_interval'")
            | Some interval =>
                if negb (positive_int interval) then
                  Raise (OtherException "ValueError"
                           "check_interval must be a positive integer")
                else Ok tt
            end
      end
  end.

(** A configuration that passes, with credentials that are [None]. *)
Definition minimal_config : gmap string pyval :=
  list_to_map
    [("headless", PyBool true); ("user_agent", PyStr "Mozilla/5.0");
     ("vfs_username", PyNone); ("vfs_password", PyNone);
     ("rate_limit_per_second", PyInt 5); ("check_interval", PyInt 300);
     ("max_retries", PyInt 5); ("retry_delay", PyInt 5);
     ("health_check_interval", PyInt 600); ("log_level", PyStr "INFO")]%string.

End VFSBookingBot.

Module BookingManager.

(** [self.booking_stats]. *)
Record BookingStats := mkBookingStats {
  total_attempts : Z;
  successful_bookings : Z;
  failed_bookings : Z
}.

(** The dictionary of [__init__]. *)
Definition new_stats : BookingStats := mkBookingStats 0 0 0.

(** How one run of [_book_slot] ends: the confirmation text was found; an
    [Exception] was raised inside the [try] block; or the coroutine was
    cancelled ([asyncio.CancelledError] is not an [Exception] and passes
    the handler). *)
Inductive booking_end := Confirmed | Failed | Cancelled.

(** What [_book_slot] does to the statistics. *)
Definition book_slot_stats (s : BookingStats) (ending : booking_end) : BookingStats :=
  let s := mkBookingStats (total_attempts s + 1) (successful_bookings s) (failed_bookings s) in
  match ending with
  | Confirmed => mkBookingStats (total_attempts s) (successful_bookings s + 1) (failed_bookings s)
  | Failed => mkBookingStats (total_attempts s) (successful_bookings s) (failed_bookings s + 1)
  | Cancelled => s
  end.

(** The ["success_rate"] entry of [get_booking_stats]. *)
Definition success_rate (s : BookingStats) : Q :=
  if 0 <? total_attempts s then
    (inject_Z (successful_bookings s) / inject_Z (total_attempts s) * 100)%Q
  else 0%Q.

Definition get_booking_stats (s : BookingStats) : BookingStats * Q := (s, success_rate s).

End BookingManager.

(** * Properties of the model *)

(** ** The stable sort *)
Section PySortedFacts.
Context {A K : Type} (key : A -> K) (lt : K -> K -> bool).

Lemma insort_perm (x : A) (l : list A) : Permutation (x :: l) (insort key lt x l).
Proof.
  induction l as [|y l IH]; simpl; [reflexivity|].
  destruct (lt (key y) (key x)); [|reflexivity].
  rewrite perm_swap. now apply perm_skip.
Qed.

Lemma sorted_perm (l : list A) : Permutation l (sorted key lt l).
Proof.
  induction l as [|x l IH]; simpl; [constructor|].
  rewrite <- insort_perm. now apply perm_skip.
Qed.

(** [lt] is a strict weak order on the keys. *)
Hypothesis lt_asym : forall a b, lt a b = true -> lt b a = false.
Hypothesis lt_cotrans : forall a b c, lt a c = true -> lt a b = true \/ lt b c = true.

Lemma lt_irrefl (a : K) : lt a a = false.
Proof. destruct (lt a a) eqn:E; [|reflexivity]. now rewrite (lt_asym _ _ E) in E. Qed.

Lemma insort_sorted (x : A) (l : list A) :
  StronglySorted (not_after key lt) l ->
  StronglySorted (not_after key lt) (insort key lt x l).
Proof.
  induction 1 as [|y l Hl IH Hy]; simpl.
  - repeat constructor.
  - destruct (lt (key y) (key x)) eqn:E.
    + constructor; [exact IH|].
      rewrite <- insort_perm. constructor; [|exact Hy].
      unfold not_after. now apply lt_asym.
    + constructor; [now constructor|].
      constructor; [exact E|].
      eapply Forall_impl; [exact Hy|]. unfold not_after. intros z Hz.
      destruct (lt (key z) (key x)) eqn:Ez; [|reflexivity].
      destruct (lt_cotrans _ (key y) _ Ez); congruence.
Qed.

Lemma sorted_sorted (l : list A) : StronglySorted (not_after key lt) (sorted key lt l).
Proof.
  induction l as [|x l IH]; simpl; [constructor|]. now apply insort_sorted.
Qed.

Lemma insort_stable `{EqDecision K} (k : K) (x : A) (l : list A) :
  filter (fun a => key a = k) (insort key lt x l) = filter (fun a => key a = k) (x :: l).
Proof.
  induction l as [|y l IH]; simpl; [reflexivity|].
  destruct (lt (key y) (key x)) eqn:E; [|reflexivity].
  rewrite (filter_cons _ y), IH, !filter_cons.
  repeat case_decide; try reflexivity.
  exfalso. assert (key y = key x) as Heq by congruence.
  rewrite Heq, lt_irrefl in E. discriminate.
Qed.

Lemma sorted_stable `{EqDecision K} (k : K) (l : list A) :
  filter (fun a => key a = k) (sorted key lt l) = filter (fun a => key a = k) l.
Proof.
  induction l as [|x l IH]; simpl; [reflexivity|].
  rewrite insort_stable, !filter_cons, IH. reflexivity.
Qed.
End PySortedFacts.

Lemma StronglySorted_lookup {A : Type} (R : A -> A -> Prop) (l : list A) :
  StronglySorted R l ->
  forall i j a b, (i < j)%nat -> l !! i = Some a -> l !! j = Some b -> R a b.
Proof.
  induction 1 as [|x l Hl IH Hx]; intros i j a b Hij Hi Hj.
  - now rewrite lookup_nil in Hi.
  - destruct j as [|j]; [lia|]. simpl in Hj.
    destruct i as [|i]; simpl in Hi.
    + injection Hi as <-. rewrite Forall_forall in Hx. apply Hx.
      eapply list_elem_of_lookup_2. exact Hj.
    + apply (IH i j); [lia|assumption..].
Qed.

(** ** Slot prioritization *)
Section PriorityManagerFacts.
Import PriorityManager.

Lemma tuple_lt_asym (a b : bool * bool * Z) : tuple_lt a b = true -> tuple_lt b a = false.
Proof.
  destruct a as [[a1 a2] a3], b as [[b1 b2] b3].
  destruct a1, a2, b1, b2; simpl; try congruence;
    destruct (Z.ltb_spec a3 b3), (Z.ltb_spec b3 a3); intros; try reflexivity; try discriminate; lia.
Qed.

Lemma tuple_lt_cotrans (a b c : bool * bool * Z) :
  tuple_lt a c = true -> tuple_lt a b = true \/ tuple_lt b c = true.
Proof.
  destruct a as [[a1 a2] a3], b as [[b1 b2] b3], c as [[c1 c2] c3].
  destruct a1, a2, b1, b2, c1, c2; simpl; try congruence; auto;
    destruct (Z.ltb_spec a3 c3), (Z.ltb_spec a3 b3), (Z.ltb_spec b3 c3);
    intros; auto; try discriminate; lia.
Qed.

(** C1.  The ranked output of [apply_prioritization_strategy] is a
    rearrangement of its input in which no SCHENGEN slot stands before a
    NACIONAL slot and, among slots of one visa category, dates never
    decrease; the sort is stable: the slots that share a key appear in the
    order they had in the input. *)
Theorem apply_prioritization_strategy_ranked (slots : list Slot) :
  let ranked := apply_prioritization_strategy slots in
  Permutation slots ranked /\
  (forall i j a b, (i < j)%nat -> ranked !! i = Some a -> ranked !! j = Some b ->
     ~ (type a = SCHENGEN /\ type b = NACIONAL) /\
     (type a = type b -> date a <= date b)) /\
  (forall k, filter (fun s => priority_key s = k) ranked
             = filter (fun s => priority_key s = k) slots).
Proof.
  unfold apply_prioritization_strategy. split; [|split].
  - apply sorted_perm.
  - intros i j a b Hij Hi Hj.
    pose proof (StronglySorted_lookup _ _
      (sorted_sorted priority_key tuple_lt tuple_lt_asym tuple_lt_cotrans slots)
      i j a b Hij Hi Hj) as Hab.
    unfold not_after, priority_key, tuple_lt in Hab. split.
    + intros [Ha Hb]. rewrite Ha, Hb in Hab. cbn in Hab. discriminate.
    + intros Hty. rewrite Hty in Hab.
      rewrite !Bool.eqb_reflx in Hab. simpl in Hab. lia.
  - intros k. apply sorted_stable. exact tuple_lt_asym.
Qed.

(** The scenario of the specification: a SCHENGEN slot dated 2025-06-01 and
    a NACIONAL slot dated 2025-06-05 come out NACIONAL first. *)
Example apply_prioritization_strategy_scenario :
  apply_prioritization_strategy
    [mkSlot "s" 1748736000000000 SCHENGEN 1; mkSlot "n" 1749081600000000 NACIONAL 1]
  = [mkSlot "n" 1749081600000000 NACIONAL 1; mkSlot "s" 1748736000000000 SCHENGEN 1].
Proof. reflexivity. Qed.

Lemma validate_loop_acc (clock : nat -> Z) (slots : list Slot) :
  forall i acc, validate_loop clock i slots acc = acc ++ validate_loop clock i slots [].
Proof.
  induction slots as [|s rest IH]; intros i acc; simpl.
  - now rewrite app_nil_r.
  - destruct (bool_decide _); [apply IH|].
    destruct (_ <=? _); [apply IH|].
    destruct (_ <? _); [apply IH|].
    rewrite (IH _ (acc ++ [s])), (IH _ [s]). now rewrite <- app_assoc.
Qed.

(** The three tests of the loop body pass exactly on the valid slots. *)
Lemma validate_loop_cons (clock : nat -> Z) (i : nat) (s : Slot) (rest : list Slot) :
  validate_loop clock i (s :: rest) []
  = (if decide (slot_ok (clock i) s) then [s] else []) ++ validate_loop clock (S i) rest [].
Proof.
  simpl. unfold slot_ok.
  destruct (bool_decide_reflect (type s ∉ [NACIONAL; SCHENGEN])) as [Hty|Hty].
  - rewrite decide_False; [reflexivity|].
    intros [[H|H] _]; apply Hty; rewrite H, !elem_of_cons; auto.
  - assert (type s = NACIONAL \/ type s = SCHENGEN) as Hty'.
    { destruct (decide (type s = NACIONAL)); [now left|].
      destruct (decide (type s = SCHENGEN)); [now right|].
      exfalso. apply Hty. rewrite !elem_of_cons, elem_of_nil. tauto. }
    destruct (Z.leb_spec (available_spots s) 0).
    + rewrite decide_False by lia. reflexivity.
    + destruct (Z.ltb_spec (date s) (clock i)).
      * rewrite decide_False by lia. reflexivity.
      * rewrite decide_True by (repeat split; [assumption|lia..]).
        rewrite validate_loop_acc. reflexivity.
Qed.

Lemma validate_loop_app (clock : nat -> Z) (l1 l2 : list Slot) :
  forall i, validate_loop clock i (l1 ++ l2) []
            = validate_loop clock i l1 [] ++ validate_loop clock (i + length l1) l2 [].
Proof.
  induction l1 as [|s l1 IH]; intros i.
  - simpl. now rewrite Nat.add_0_r.
  - rewrite <- app_comm_cons, !validate_loop_cons, IH, <- app_assoc.
    simpl. now rewrite Nat.add_succ_r.
Qed.

Lemma validate_loop_all_ok (clock : nat -> Z) (l : list Slot) :
  forall i, (forall k s, l !! k = Some s -> slot_ok (clock (i + k)%nat) s) ->
            validate_loop clock i l [] = l.
Proof.
  induction l as [|s l IH]; intros i Hok; [reflexivity|].
  rewrite validate_loop_cons, decide_True.
  - simpl. f_equal. apply IH. intros k s' Hk.
    rewrite Nat.add_succ_comm. now apply Hok.
  - specialize (Hok 0%nat s eq_refl). now rewrite Nat.add_0_r in Hok.
Qed.

Lemma validate_loop_filter (clock : nat -> Z) (l : list Slot) :
  forall i, validate_loop clock i l []
            = (filter (fun p => slot_ok (clock p.1) p.2) (zip (seq i (length l)) l)).*2.
Proof.
  induction l as [|s l IH]; intros i; [reflexivity|].
  rewrite validate_loop_cons, IH. simpl. rewrite filter_cons. simpl.
  destruct (decide (slot_ok (clock i) s)); reflexivity.
Qed.

Lemma validate_loop_frozen (now : Z) (l : list Slot) :
  forall i, validate_loop (fun _ => now) i l [] = filter (slot_ok now) l.
Proof.
  induction l as [|s l IH]; intros i; [reflexivity|].
  rewrite validate_loop_cons, IH, filter_cons.
  destruct (decide (slot_ok now s)); reflexivity.
Qed.

(** C7.  [validate_slots] keeps, in their order, exactly the slots that are
    valid when they are examined (recognized visa type, at least one spot,
    date not in the past).  Hence a list of valid slots comes back
    unchanged, validating the outcome of a validation again at the same
    instant changes nothing, and a list with one past-dated slot and one
    slot without spots among valid ones loses exactly those two. *)
Theorem validate_slots_exact (clock : nat -> Z) :
  (forall slots,
     validate_slots clock slots
     = (filter (fun p => slot_ok (clock p.1) p.2) (zip (seq 0 (length slots)) slots)).*2) /\
  (forall slots,
     (forall i s, slots !! i = Some s -> slot_ok (clock i) s) ->
     validate_slots clock slots = slots) /\
  (forall now slots,
     validate_slots (fun _ => now) (validate_slots (fun _ => now) slots)
     = validate_slots (fun _ => now) slots) /\
  (forall before past between spotless after,
     date past < clock (length before) ->
     available_spots spotless <= 0 ->
     (forall k s, before !! k = Some s -> slot_ok (clock k) s) ->
     (forall k s, between !! k = Some s ->
                  slot_ok (clock (length before + 1 + k)%nat) s) ->
     (forall k s, after !! k = Some s ->
                  slot_ok (clock (length before + 1 + length between + 1 + k)%nat) s) ->
     validate_slots clock (before ++ past :: between ++ spotless :: after)
     = before ++ between ++ after).
Proof.
  unfold validate_slots. split; [|split; [|split]].
  - intros slots. apply validate_loop_filter.
  - intros slots Hok. now apply validate_loop_all_ok.
  - intros now slots. apply validate_loop_all_ok. intros k s Hk.
    rewrite validate_loop_frozen in Hk.
    apply list_elem_of_lookup_2, list_elem_of_filter in Hk. apply Hk.
  - intros before past between spotless after Hpast Hspots Hb Hm Ha.
    rewrite validate_loop_app, validate_loop_cons, validate_loop_app, validate_loop_cons.
    rewrite (validate_loop_all_ok _ before) by exact Hb.
    rewrite (decide_False (P := slot_ok _ past)) by (unfold slot_ok; simpl; lia).
    rewrite (decide_False (P := slot_ok _ spotless)) by (unfold slot_ok; lia).
    simpl. f_equal.
    rewrite (validate_loop_all_ok _ between).
    2:{ intros k s Hk. specialize (Hm k s Hk).
        match goal with |- slot_ok (clock ?n) _ =>
          replace n with (length before + 1 + k)%nat by lia end. exact Hm. }
    f_equal. apply validate_loop_all_ok.
    intros k s Hk. specialize (Ha k s Hk).
    match goal with |- slot_ok (clock ?n) _ =>
      replace n with (length before + 1 + length between + 1 + k)%nat by lia end.
    exact Ha.
Qed.

(** The theorem at work: with the clock at 100, of five slots the one dated
    50 and the one with no spots go, the other three stay in order. *)
Lemma validate_slots_exact_witness :
  validate_slots (fun _ => 100)
    ([mkSlot "a" 200 NACIONAL 2] ++ mkSlot "b" 50 SCHENGEN 1
       :: [mkSlot "c" 150 SCHENGEN 3] ++ mkSlot "d" 300 NACIONAL 0
       :: [mkSlot "e" 100 NACIONAL 1])
  = [mkSlot "a" 200 NACIONAL 2] ++ [mkSlot "c" 150 SCHENGEN 3] ++ [mkSlot "e" 100 NACIONAL 1].
Proof.
  apply (proj2 (proj2 (proj2 (validate_slots_exact (fun _ => 100))))); simpl; try lia;
    intros [|[|k]] s Hk; simplify_eq/=; unfold slot_ok; simpl; intuition lia.
Defined.

End PriorityManagerFacts.

(** ** The circuit breaker *)
Section CircuitBreakerFacts.
Import RetryManager.

Lemma record_failures_snoc (times : list Q) (now : Q) (cb : CircuitBreaker) :
  record_failures (times ++ [now]) cb = record_failure now (record_failures times cb).
Proof. unfold record_failures. now rewrite foldl_app. Qed.

Lemma record_failures_shape (times : list Q) (cb : CircuitBreaker) :
  state cb = CLOSED ->
  let cb' := record_failures times cb in
  failure_threshold cb' = failure_threshold cb /\
  reset_timeout cb' = reset_timeout cb /\
  failures cb' = failures cb + Z.of_nat (length times) /\
  last_failure_time cb' = (if times is [] then last_failure_time cb else last times) /\
  state cb' = (if (1 <=? Z.of_nat (length times))
                  && (failure_threshold cb <=? failures cb + Z.of_nat (length times))
               then OPEN else CLOSED).
Proof.
  intros Hclosed. induction times as [|now times IH] using rev_ind.
  - simpl. rewrite Z.add_0_r. auto.
  - rewrite record_failures_snoc. simpl in IH.
    destruct IH as (Hth & Hrt & Hf & _ & Hst).
    rewrite length_app, Nat2Z.inj_add. simpl length.
    unfold record_failure; simpl. rewrite Hth, Hrt, Hf, Hst.
    repeat split; try lia.
    + rewrite last_snoc. now destruct times.
    + change (Z.of_nat 1) with 1.
      generalize (Z.of_nat (length times)) (Nat2Z.is_nonneg (length times)).
      intros n Hn.
      destruct (Z.leb_spec (failure_threshold cb) (failures cb + n + 1)),
               (Z.leb_spec 1 n), (Z.leb_spec (failure_threshold cb) (failures cb + n)),
               (Z.leb_spec 1 (n + 1)),
               (Z.leb_spec (failure_threshold cb) (failures cb + (n + 1)));
        simpl; try reflexivity; lia.
Qed.

(** C5.  From a Closed breaker with no failures counted, a run of
    [record_failure] calls leaves the breaker Closed as long as fewer than
    [failure_threshold] calls were made and Open from the call on which the
    count reaches the threshold; once Open, [can_request] answers false
    (and changes nothing) whenever no more than [reset_timeout] seconds have
    passed since the last recorded failure. *)
Theorem record_failure_opens_at_threshold (cb : CircuitBreaker) (times : list Q) :
  state cb = CLOSED ->
  failures cb = 0 ->
  let cb' := record_failures times cb in
  let n := Z.of_nat (length times) in
  failures cb' = n /\
  (n < failure_threshold cb -> state cb' = CLOSED) /\
  (1 <= n -> failure_threshold cb <= n ->
   state cb' = OPEN /\
   forall last_failure now,
     last times = Some last_failure ->
     (now - last_failure <= reset_timeout cb)%Q ->
     can_request now cb' = (false, cb')).
Proof.
  intros Hclosed Hzero cb' n.
  destruct (record_failures_shape times cb Hclosed) as (Hth & Hrt & Hf & Hlast & Hst).
  fold cb' in Hth, Hrt, Hf, Hlast, Hst. rewrite Hzero, Z.add_0_l in Hf, Hst. fold n in Hf, Hst.
  split; [exact Hf|]. split.
  - intros Hlt. rewrite Hst.
    destruct (Z.leb_spec (failure_threshold cb) n); [lia|]. now rewrite andb_false_r.
  - intros H1 Hge.
    assert (state cb' = OPEN) as Hopen.
    { rewrite Hst. destruct (Z.leb_spec 1 n); [|lia].
      destruct (Z.leb_spec (failure_threshold cb) n); [reflexivity|lia]. }
    split; [exact Hopen|].
    intros t now Ht Hnow. unfold can_request, timeout_elapsed.
    rewrite Hopen. simpl.
    destruct times as [|t0 times0]; [discriminate|].
    rewrite Hlast, Ht, Hrt.
    assert (Qltb (reset_timeout cb) (now - t) = false) as ->.
    { unfold Qltb. apply negb_false_iff, Qle_bool_iff. exact Hnow. }
    now rewrite andb_false_r.
Qed.

(** Five failures against a threshold of five: the fifth call opens the
    breaker, and a request two seconds later is refused. *)
Lemma record_failure_opens_at_threshold_witness :
  let cb' := record_failures [1; 2; 3; 4; 5]%Q (new_breaker None None) in
  state (record_failures [1; 2; 3; 4]%Q (new_breaker None None)) = CLOSED /\
  state cb' = OPEN /\
  can_request 7 cb' = (false, cb').
Proof.
  pose proof (record_failure_opens_at_threshold (new_breaker None None) [1; 2; 3; 4]%Q
                eq_refl eq_refl) as (_ & Hbefore & _).
  pose proof (record_failure_opens_at_threshold (new_breaker None None) [1; 2; 3; 4; 5]%Q
                eq_refl eq_refl) as (_ & _ & Hat).
  destruct Hat as [Hopen Hrefuse]; [simpl; lia..|].
  split; [apply Hbefore; simpl; lia|]. split; [exact Hopen|].
  apply (Hrefuse 5%Q); [reflexivity|]. vm_compute. discriminate.
Defined.

(** C6 as stated (HalfOpen admits a single probe), refuted: a breaker opened
    at time 100 with a timeout of 30 admits the request at 200 (turning
    HalfOpen) and admits the next request, at 201, as well. *)
Lemma can_request_half_open_counterexample :
  let cb := mkBreaker 5 30 5 OPEN (Some 100%Q) in
  let probe := can_request 200 cb in
  probe.1 = true /\ state probe.2 = HALF_OPEN /\
  (can_request 201 probe.2).1 <> false.
Proof. vm_compute. repeat split; discriminate. Qed.

(** C6, amended.  An Open breaker whose (non-zero) [last_failure_time] lies
    more than [reset_timeout] seconds back answers the next [can_request]
    with true and turns HalfOpen.  While it is HalfOpen every further
    [can_request] is answered true as well and leaves it HalfOpen: the
    number of probes is not limited. *)
Theorem can_request_half_open (cb : CircuitBreaker) (now last_failure : Q) :
  state cb = OPEN ->
  last_failure_time cb = Some last_failure ->
  ~ (last_failure == 0)%Q ->
  (reset_timeout cb < now - last_failure)%Q ->
  let probe := can_request now cb in
  probe.1 = true /\
  state probe.2 = HALF_OPEN /\
  forall later, can_request later probe.2 = (true, probe.2).
Proof.
  intros Hopen Hlast Hnz Hlate. unfold can_request, timeout_elapsed.
  rewrite Hopen, Hlast. simpl.
  assert (Qeq_bool last_failure 0 = false) as ->.
  { destruct (Qeq_bool last_failure 0) eqn:E; [|reflexivity].
    now apply Qeq_bool_iff in E. }
  assert (Qltb (reset_timeout cb) (now - last_failure) = true) as ->.
  { unfold Qltb. apply negb_true_iff. destruct (Qle_bool _ _) eqn:E; [|reflexivity].
    apply Qle_bool_iff in E. lra. }
  simpl. auto.
Qed.

Lemma can_request_half_open_witness :
  let probe := can_request 200 (mkBreaker 5 30 5 OPEN (Some 100%Q)) in
  probe.1 = true /\ state probe.2 = HALF_OPEN /\
  forall later, can_request later probe.2 = (true, probe.2).
Proof.
  apply (can_request_half_open (mkBreaker 5 30 5 OPEN (Some 100%Q)) 200 100);
    [reflexivity | reflexivity | vm_compute; discriminate | vm_compute; reflexivity].
Defined.

End CircuitBreakerFacts.

(** ** Backoff delays *)
Section BackoffFacts.
Import RetryManager.

(** The first values: 1, 1, 1, 2, 3, 5, 8 for n = 0 .. 6. *)
Example fibonacci_values : map fibonacci [0; 1; 2; 3; 4; 5; 6] = [1; 1; 1; 2; 3; 5; 8].
Proof. reflexivity. Qed.

Lemma fibonacci_iter (k : nat) :
  Nat.iter k (fun '(a, b) => (b, a + b)) (1, 1) = (usual_fib (S k), usual_fib (S (S k))).
Proof.
  induction k as [|k IH]; [reflexivity|].
  rewrite Nat.iter_succ, IH.
  change (usual_fib (S (S (S k)))) with (usual_fib (S (S k)) + usual_fib (S k)).
  f_equal. lia.
Qed.

Lemma fibonacci_usual (n : Z) : 1 <= n -> fibonacci n = usual_fib (Z.to_nat n).
Proof.
  intros Hn. unfold fibonacci. destruct (Z.leb_spec n 1).
  - assert (n = 1) as -> by lia. reflexivity.
  - rewrite fibonacci_iter. cbn [snd]. f_equal. lia.
Qed.

Lemma py_min_le_r (a b : Q) : (py_min a b <= b)%Q.
Proof.
  unfold py_min, Qltb. destruct (Qle_bool a b) eqn:E; simpl.
  - now apply Qle_bool_iff.
  - apply Qle_refl.
Qed.






End BackoffFacts.

(** ** The retry loop *)
Section RetryFacts.
Import RetryManager.
Context {V : Type}.
Variable env : Env (V := V).
Variable operation_name : string.
Variable retry_options : RetryOptions.

Local Abbreviation max := (max_retries retry_options).
Local Abbreviation loop := (retry_loop env operation_name retry_options).

Lemma can_request_closed (now : Q) (cb : CircuitBreaker) :
  state cb = CLOSED -> can_request now cb = (true, cb).
Proof. intros H. unfold can_request. now rewrite H. Qed.

Lemma record_failure_stays_closed (now : Q) (cb : CircuitBreaker) :
  state cb = CLOSED -> failures cb + 1 < failure_threshold cb ->
  state (record_failure now cb) = CLOSED.
Proof.
  intros Hc Hlt. unfold record_failure; simpl.
  destruct (Z.leb_spec (failure_threshold cb) (failures cb + 1)); [lia|exact Hc].
Qed.

Lemma retry_loop_S (fuel : nat) (attempts : Z) (last_error : option exn)
    (cb : CircuitBreaker) (tr : list event) :
  loop (S fuel) attempts last_error cb tr
  = if attempts <? max then
      match attempt env operation_name attempts cb tr with
      | (Ok v, cb, tr) => Some (Ok v, cb, tr)
      | (Raise e, cb, tr) =>
          if is_network_error e then
            loop fuel (attempts + 1) (Some e)
                 (record_failure (time_record_failure env attempts) cb) tr
          else if max <=? attempts + 1 then
            Some (exhausted env operation_name retry_options (attempts + 1) (Some e)
                    (record_failure (time_record_failure env attempts) cb) tr)
          else
            loop fuel (attempts + 1) (Some e)
                 (record_failure (time_record_failure env attempts) cb)
                 (tr ++ [EvSleep (calculate_delay (attempts + 1) retry_options
                                    (jitter env attempts))])
      end
    else Some (exhausted env operation_name retry_options attempts last_error cb tr).
Proof. reflexivity. Qed.


(** The loop never runs out of the fuel [retry] gives it. *)
Lemma retry_loop_total (k : nat) :
  forall (extra : nat) (attempts : Z) (last_error : option exn)
         (cb : CircuitBreaker) (tr : list event),
    max - attempts <= Z.of_nat k ->
    exists r, loop (S (k + extra)) attempts last_error cb tr = Some r.
Proof.
  induction k as [|k IH]; intros extra attempts last_error cb tr Hk.
  - rewrite retry_loop_S. destruct (Z.ltb_spec attempts max); [lia|eauto].
  - change (S (S k + extra)) with (S (S (k + extra))). rewrite retry_loop_S.
    destruct (attempts <? max); [|eauto].
    destruct (attempt env operation_name attempts cb tr) as [[[v|e] cb1] tr1]; [eauto|].
    destruct (is_network_error e); [apply IH; lia|].
    destruct (max <=? attempts + 1); [eauto|apply IH; lia].
Qed.

Lemma retry_total (cb : CircuitBreaker) :
  exists r, retry env operation_name retry_options cb = Some r.
Proof.
  unfold retry. rewrite <- (Nat.add_0_r (Z.to_nat max)).
  apply retry_loop_total. lia.
Qed.



End RetryFacts.

Section RetryScenarios.
Import RetryManager.


(** The scenario of the specification: three failures under base delay 5
    and the exponential strategy sleep about 5 and about 10 seconds, and
    there is no third sleep. *)
Example retry_exhaustion_scenario :
  match retry failing_env "book" three_attempts (new_breaker None None) with
  | Some (_, _, tr) => List.filter is_sleep tr = [EvSleep (21 # 4); EvSleep (41 # 4)]
  | None => False
  end.
Proof. vm_compute. reflexivity. Qed.

(** C4, as the code behaves.  The breaker is Open (opened at time 100,
    timeout 30) and refuses at the start of each of the three iterations
    (times 101, 102, 103).  [retry] does not stop at the first refusal: it
    sleeps the backoff delays 5 and 10, counts three more failures against
    the breaker, and in the end raises the ordinary exhaustion error, the
    circuit-open error being only its [last_error]. *)
Theorem retry_circuit_open_swallowed :
  retry refused_env "book" three_attempts (mkBreaker 5 30 5 OPEN (Some 100%Q))
  = Some (Raise (RetryError "Max retries reached (3)"
                   (Some (RetryError "Circuit breaker is open"
                            (Some (OtherException "Exception" "Circuit breaker open")) 2))
                   3),
          mkBreaker 5 30 8 OPEN (Some 103%Q),
          [EvSleep 5; EvSleep 10; EvHealthError "book" "circuit open"]).
Proof. vm_compute. reflexivity. Qed.

End RetryScenarios.

(** ** Failure policy of the prioritization entry point *)
Section PrioritizationFailure.
Import PriorityManager.

Lemma handle_error_missing :
  RetryManager.getattr_RetryManager "handle_error"
  = Raise (OtherException "AttributeError"
             "'RetryManager' object has no attribute 'handle_error'").
Proof. reflexivity. Qed.

(** C8, as the code behaves.  Whenever the [try] block of
    [prioritize_slots_for_slot_checker] raises, the handler fails on the
    missing method [handle_error] of the retry manager: the call raises
    [AttributeError] instead of returning the empty list, and the health
    monitor is told nothing. *)
Theorem prioritization_error_propagates (env : Env) (slots : list Slot)
    (history history' : list PrioritizationEvent) (tr tr' : list event) (e : exn) :
  try_body env slots history tr = (Raise e, history', tr') ->
  prioritize_slots_for_slot_checker env slots history tr
  = (Raise (OtherException "AttributeError"
              "'RetryManager' object has no attribute 'handle_error'"),
     history', tr').
Proof.
  intros Hraise. unfold prioritize_slots_for_slot_checker.
  rewrite Hraise. unfold handle_prioritization_error.
  rewrite handle_error_missing. reflexivity.
Qed.

(** The security hook times out: nothing is returned, nothing is reported. *)
Lemma prioritization_error_propagates_witness :
  prioritize_slots_for_slot_checker hook_fails [mkSlot "a" 200 NACIONAL 2] [] []
  = (Raise (OtherException "AttributeError"
              "'RetryManager' object has no attribute 'handle_error'"),
     [], [EvSecurity]).
Proof.
  apply (prioritization_error_propagates hook_fails _ [] [] [] [EvSecurity] TimeoutError).
  reflexivity.
Defined.

End PrioritizationFailure.

(** ** Component probes of the health monitor *)
Section HealthCheckFacts.
Import HealthCheck.

Variable probe : string -> string -> probe_outcome.
Variable now : string -> string.

Lemma check_component_other (component other : string) (stamp : string)
    (reply : probe_outcome) (m : Monitor) :
  component <> other ->
  error_counts (check_component stamp component reply m) !! other = error_counts m !! other /\
  components (check_component stamp component reply m) !! other = components m !! other.
Proof.
  intros Hne. unfold check_component, handle_component_error.
  destruct reply as [code rt| |err]; [destruct (code =? 200)|..]; simpl;
    rewrite !lookup_insert_ne by exact Hne; auto.
Qed.

Lemma check_components_other (endpoints : list (string * string)) (other : string) :
  forall m, other ∉ endpoints.*1 ->
    error_counts (check_components probe now endpoints m) !! other = error_counts m !! other /\
    components (check_components probe now endpoints m) !! other = components m !! other.
Proof.
  induction endpoints as [|[c url] rest IH]; intros m Hnot; [auto|].
  simpl in Hnot. apply not_elem_of_cons in Hnot as [Hne Hrest].
  unfold check_components in *. simpl.
  destruct (IH (check_component (now c) c (probe c url) m) Hrest) as [-> ->].
  apply check_component_other. congruence.
Qed.

(** What one probe leaves behind for its own component. *)
Lemma check_component_self (component stamp : string) (reply : probe_outcome) (m : Monitor) :
  let m' := check_component stamp component reply m in
  match reply with
  | Responded status_code response_time =>
      if status_code =? 200 then
        components m' !! component = Some (mkHealth HEALTHY response_time stamp None) /\
        error_counts m' !! component = Some 0
      else
        components m' !! component = Some (mkHealth DEGRADED response_time stamp None) /\
        error_counts m' !! component = Some (bumped component m)
  | TimedOut =>
      components m' !! component = Some (mkHealth CRITICAL (-1) stamp (Some "Timeout"%string)) /\
      error_counts m' !! component = Some (bumped component m)
  | Failed error =>
      components m' !! component = Some (mkHealth CRITICAL (-1) stamp (Some error)) /\
      error_counts m' !! component = Some (bumped component m)
  end.
Proof.
  unfold check_component, handle_component_error.
  destruct reply as [code rt| |err]; [destruct (code =? 200)|..]; simpl;
    rewrite !lookup_insert_eq; auto.
Qed.

(** C9.  After [check_components] has gone through the configured endpoints
    (a dictionary: no component occurs twice), each component stands as its
    probe left it: on status 200 it is Healthy and its error count is 0; on
    any other status it is Degraded and its error count is one more than
    before; on a timeout or any other exception it is Critical with the
    error recorded and its error count is one more than before. *)
Theorem check_components_status (endpoints : list (string * string)) (m : Monitor)
    (component url : string) :
  NoDup endpoints.*1 ->
  (component, url) ∈ endpoints ->
  let m' := check_components probe now endpoints m in
  match probe component url with
  | Responded status_code response_time =>
      if status_code =? 200 then
        components m' !! component
        = Some (mkHealth HEALTHY response_time (now component) None) /\
        error_counts m' !! component = Some 0
      else
        components m' !! component
        = Some (mkHealth DEGRADED response_time (now component) None) /\
        error_counts m' !! component = Some (default 0 (error_counts m !! component) + 1)
  | TimedOut =>
      components m' !! component
      = Some (mkHealth CRITICAL (-1) (now component) (Some "Timeout"%string)) /\
      error_counts m' !! component = Some (default 0 (error_counts m !! component) + 1)
  | Failed error =>
      components m' !! component
      = Some (mkHealth CRITICAL (-1) (now component) (Some error)) /\
      error_counts m' !! component = Some (default 0 (error_counts m !! component) + 1)
  end.
Proof.
  revert m. induction endpoints as [|[c u] rest IH]; intros m Hnodup Hin.
  - now apply elem_of_nil in Hin.
  - simpl in Hnodup. apply NoDup_cons in Hnodup as [Hfresh Hnodup].
    unfold check_components in *. simpl.
    apply elem_of_cons in Hin as [Heq|Hin].
    + injection Heq as <- <-.
      destruct (check_components_other rest component
                  (check_component (now component) component (probe component url) m) Hfresh)
        as [Hcounts Hcomps].
      unfold check_components in Hcounts, Hcomps. rewrite Hcounts, Hcomps.
      apply check_component_self.
    + assert (c <> component) as Hne.
      { intros ->. apply Hfresh. apply list_elem_of_fmap. now exists (component, url). }
      specialize (IH (check_component (now c) c (probe c u) m) Hnodup Hin).
      destruct (check_component_other c component (now c) (probe c u) m Hne) as [Hcounts _].
      rewrite Hcounts in IH. exact IH.
Qed.

End HealthCheckFacts.

Section HealthCheckScenario.
Import HealthCheck.

(** Three endpoints: one answers 200, one answers 503, one times out. *)
Lemma check_components_status_witness :
  let m' := check_components three_probes (fun _ => "t"%string) three_endpoints
              (mkMonitor {[ "api"%string := 4 ]} ∅) in
  components m' !! "api"%string = Some (mkHealth HEALTHY (1 # 2) "t" None) /\
  error_counts m' !! "api"%string = Some 0.
Proof.
  apply (check_components_status three_probes (fun _ => "t"%string) three_endpoints
           (mkMonitor {[ "api"%string := 4 ]} ∅) "api" "http://api/health").
  - vm_compute. repeat constructor; rewrite ?elem_of_cons, ?elem_of_nil; intuition discriminate.
  - apply list_elem_of_here.
Defined.

End HealthCheckScenario.

(** ** The per-slot booking lock *)
Section BookingLockFacts.
Import VFSBookingBot.

(** The lock of a slot id is created on first use. *)
Lemma get_booking_lock_first_use (slot_id : string) (t : LockTable) :
  booking_locks t !! slot_id = None ->
  get_booking_lock slot_id t
  = (Some (next_lock t),
     mkTable (<[slot_id := next_lock t]> (booking_locks t)) (S (next_lock t))).
Proof.
  intros Hnone. unfold get_booking_lock.
  rewrite bool_decide_eq_true_2 by exact Hnone. simpl.
  now rewrite lookup_insert_eq.
Qed.

(** Afterwards every call for that slot id returns the same lock and leaves
    the table as it is. *)
Lemma get_booking_lock_again (slot_id : string) (t : LockTable) :
  let '(lock, t') := get_booking_lock slot_id t in
  is_Some lock /\ get_booking_lock slot_id t' = (lock, t').
Proof.
  destruct (booking_locks t !! slot_id) as [l|] eqn:Hlook.
  - unfold get_booking_lock. rewrite Hlook. simpl. rewrite Hlook. simpl.
    split; [eauto|]. now rewrite Hlook.
  - rewrite (get_booking_lock_first_use _ _ Hlook). split; [eauto|].
    unfold get_booking_lock. simpl. rewrite lookup_insert_eq.
    rewrite bool_decide_eq_false_2 by discriminate. simpl.
    now rewrite lookup_insert_eq.
Qed.

(** The locks of other slot ids are not touched. *)
Lemma get_booking_lock_other (slot_id other : string) (t : LockTable) :
  slot_id <> other ->
  booking_locks (get_booking_lock slot_id t).2 !! other = booking_locks t !! other.
Proof.
  intros Hne. unfold get_booking_lock. case_bool_decide; simpl; [|reflexivity].
  now rewrite lookup_insert_ne.
Qed.

(** One lock per slot id: distinct slot ids never share a lock. *)
Lemma get_booking_lock_well_formed (slot_id : string) (t : LockTable) :
  well_formed t -> well_formed (get_booking_lock slot_id t).2.
Proof.
  intros [Hold Hinj]. unfold get_booking_lock.
  case_bool_decide as Hnone; simpl; [|now split].
  unfold well_formed. simpl. split.
  - intros s l. rewrite lookup_insert. case_decide.
    + intros [= <-]. lia.
    + intros Hs. specialize (Hold s l Hs). lia.
  - intros s1 s2 l. rewrite !lookup_insert.
    repeat case_decide; intros H1 H2; simplify_eq; eauto.
    + specialize (Hold _ _ H2). lia.
    + specialize (Hold _ _ H1). lia.
Qed.

End BookingLockFacts.

(** ** More on the circuit breaker *)
Section CircuitBreakerInvariant.
Import RetryManager.

Lemma breaker_step_sound (cb : CircuitBreaker) (c : breaker_call) :
  breaker_sound cb -> breaker_sound (breaker_step cb c).
Proof.
  unfold breaker_sound. intros [Hnn Hst]. destruct c as [|now|now]; simpl.
  - split; [lia|]. now left.
  - destruct (Z.leb_spec (failure_threshold cb) (failures cb + 1)).
    + split; [lia|]. repeat split; eauto; lia.
    + split; [lia|]. destruct (state cb); try lia.
  - unfold can_request. destruct (state cb) eqn:E; simpl.
    + rewrite E. auto.
    + destruct (timeout_elapsed now cb); simpl; [|rewrite E]; auto.
    + rewrite E. auto.
Qed.

Lemma breaker_step_options (cb : CircuitBreaker) (c : breaker_call) :
  failure_threshold (breaker_step cb c) = failure_threshold cb /\
  reset_timeout (breaker_step cb c) = reset_timeout cb.
Proof.
  destruct c as [|now|now]; simpl; auto.
  unfold can_request. repeat case_match; simpl; auto.
Qed.

(** X1.  Whatever sequence of [record_success], [record_failure] and
    [can_request] calls a new breaker receives, its failure count is never
    negative; while it is Closed the count is 0 or below the threshold; and
    while it is Open or HalfOpen the count has reached the threshold, at
    least one failure was recorded and [last_failure_time] is set.  The two
    options never change. *)
Theorem breaker_run_sound (threshold : option Z) (timeout : option Q)
    (calls : list breaker_call) :
  let cb := breaker_run calls (new_breaker threshold timeout) in
  breaker_sound cb /\
  failure_threshold cb = default 5 threshold /\
  reset_timeout cb = default 30%Q timeout.
Proof.
  induction calls as [|c calls IH] using rev_ind.
  - simpl. unfold breaker_sound. simpl. repeat split; auto; lia.
  - unfold breaker_run in *. rewrite foldl_app. simpl.
    destruct IH as (Hsound & Hth & Hrt).
    destruct (breaker_step_options (foldl breaker_step (new_breaker threshold timeout) calls) c)
      as [-> ->].
    split; [now apply breaker_step_sound|]. now split.
Qed.

(** X2.  A breaker that started new and has become HalfOpen is decided by
    the outcome of the probe: a recorded failure opens it again, and
    requests are then refused until more than [reset_timeout] seconds have
    passed since that failure; a recorded success closes it, clears the
    failure count, and requests are accepted. *)
Theorem half_open_probe_outcome (threshold : option Z) (timeout : option Q)
    (calls : list breaker_call) (now : Q) :
  let cb := breaker_run calls (new_breaker threshold timeout) in
  state cb = HALF_OPEN ->
  (state (record_failure now cb) = OPEN /\
   forall later, (later - now <= reset_timeout cb)%Q ->
                 can_request later (record_failure now cb) = (false, record_failure now cb)) /\
  (state (record_success cb) = CLOSED /\
   failures (record_success cb) = 0 /\
   forall later, can_request later (record_success cb) = (true, record_success cb)).
Proof.
  intros cb Hhalf.
  destruct (breaker_run_sound threshold timeout calls) as ([Hnn Hst] & _).
  fold cb in Hnn, Hst. rewrite Hhalf in Hst. destruct Hst as (Hth & _ & _).
  assert (state (record_failure now cb) = OPEN) as Hopen.
  { unfold record_failure; simpl.
    destruct (Z.leb_spec (failure_threshold cb) (failures cb + 1)); [reflexivity|lia]. }
  split; [split; [exact Hopen|]|].
  - intros later Hlater. unfold can_request. rewrite Hopen. simpl.
    unfold timeout_elapsed. simpl.
    assert (Qltb (reset_timeout cb) (later - now) = false) as ->.
    { unfold Qltb. apply negb_false_iff, Qle_bool_iff. exact Hlater. }
    now rewrite andb_false_r.
  - repeat split. 
Qed.

Lemma half_open_probe_outcome_witness :
  let cb := breaker_run [CallFailure 1; CallFailure 2; CallRequest 40]
              (new_breaker (Some 2) None) in
  state (record_failure 41 cb) = OPEN /\ state (record_success cb) = CLOSED.
Proof.
  destruct (half_open_probe_outcome (Some 2) None
              [CallFailure 1; CallFailure 2; CallRequest 40] 41 eq_refl)
    as [[Hfail _] [Hok _]].
  split; assumption.
Defined.

End CircuitBreakerInvariant.

(** ** More on the backoff delays *)
Section BackoffGrowth.
Import RetryManager.

Lemma usual_fib_pos (k : nat) : 1 <= usual_fib (S k) /\ 0 <= usual_fib k.
Proof.
  induction k as [|k [IH1 IH0]]; [simpl; lia|].
  change (usual_fib (S (S k))) with (usual_fib (S k) + usual_fib k). lia.
Qed.

Lemma fibonacci_small (n : Z) : n <= 2 -> fibonacci n = 1.
Proof.
  intros Hn. unfold fibonacci. destruct (Z.leb_spec n 1); [reflexivity|].
  assert (n = 2) as -> by lia. reflexivity.
Qed.

Lemma fibonacci_step (n : Z) :
  1 <= n -> fibonacci (n + 2) = fibonacci (n + 1) + fibonacci n.
Proof.
  intros Hn. rewrite !fibonacci_usual by lia.
  replace (Z.to_nat (n + 2)) with (S (S (Z.to_nat n))) by lia.
  replace (Z.to_nat (n + 1)) with (S (Z.to_nat n)) by lia.
  reflexivity.
Qed.

(** X3.  [fibonacci] is 1 for every argument up to 2 (zero and negative
    numbers included), from there on each value is the sum of the two
    before it, and no value is below 1. *)
Theorem fibonacci_recurrence :
  (forall n, n <= 2 -> fibonacci n = 1) /\
  (forall n, 1 <= n -> fibonacci (n + 2) = fibonacci (n + 1) + fibonacci n) /\
  (forall n, 1 <= fibonacci n).
Proof.
  split; [exact fibonacci_small|]. split; [exact fibonacci_step|].
  intros n. destruct (Z.le_gt_cases n 2) as [H|H].
  - rewrite fibonacci_small by exact H. lia.
  - rewrite fibonacci_usual by lia.
    replace (Z.to_nat n) with (S (Z.to_nat (n - 1))) by lia.
    apply usual_fib_pos.
Qed.

Lemma fibonacci_recurrence_witness :
  fibonacci (-3) = 1 /\ fibonacci (5 + 2) = fibonacci (5 + 1) + fibonacci 5.
Proof.
  destruct fibonacci_recurrence as (Hsmall & Hstep & _).
  split; [apply Hsmall; lia|apply Hstep; lia].
Defined.

Lemma fibonacci_mono (n : Z) : 1 <= n -> fibonacci n <= fibonacci (n + 1).
Proof.
  intros Hn. destruct (Z.eq_dec n 1) as [->|Hne]; [vm_compute; discriminate|].
  replace (n + 1) with ((n - 1) + 2) by lia.
  rewrite fibonacci_step by lia. replace (n - 1 + 1) with n by lia.
  destruct fibonacci_recurrence as (_ & _ & Hpos). specialize (Hpos (n - 1)). lia.
Qed.

(** X4.  With a base delay that is not negative, the delay before jitter is
    never shorter than the base delay and never shrinks from one attempt to
    the next, whatever the strategy. *)
Theorem pre_jitter_delay_grows (n : Z) (options : RetryOptions) :
  1 <= n ->
  (0 <= base_delay options)%Q ->
  (base_delay options <= pre_jitter_delay n options)%Q /\
  (pre_jitter_delay n options <= pre_jitter_delay (n + 1) options)%Q.
Proof.
  intros Hn Hbase. unfold pre_jitter_delay.
  set (b := base_delay options) in *.
  destruct (String.eqb _ "linear"); [|destruct (String.eqb _ "exponential");
                                       [|destruct (String.eqb _ "fibonacci")]].
  - rewrite inject_Z_plus.
    assert (inject_Z 1 <= inject_Z n)%Q as H1 by (rewrite <- Zle_Qle; exact Hn).
    change (inject_Z 1) with 1%Q in *. generalize dependent (inject_Z n). intros x Hx.
    split; nra.
  - assert (1 <= 2 ^ (n - 1))%Q as H1 by (apply Qpower_1_le; [vm_compute; discriminate|lia]).
    replace (n + 1 - 1) with ((n - 1) + 1) by lia.
    rewrite Qpower_plus by (vm_compute; discriminate).
    change (2 ^ 1)%Q with 2%Q. generalize dependent (2 ^ (n - 1))%Q. intros x Hx.
    split; nra.
  - destruct fibonacci_recurrence as (_ & _ & Hpos).
    assert (inject_Z 1 <= inject_Z (fibonacci n))%Q as H1
      by (rewrite <- Zle_Qle; apply Hpos).
    change (inject_Z 1) with 1%Q in H1.
    assert (inject_Z (fibonacci n) <= inject_Z (fibonacci (n + 1)))%Q as H2
      by (rewrite <- Zle_Qle; now apply fibonacci_mono).
    generalize dependent (inject_Z (fibonacci (n + 1))).
    generalize dependent (inject_Z (fibonacci n)). intros x Hx y Hy.
    split; nra.
  - split; apply Qle_refl.
Qed.

Lemma pre_jitter_delay_grows_witness :
  (5 <= pre_jitter_delay 3 (mkOptions 5 30 "fibonacci" 5 60))%Q /\
  (pre_jitter_delay 3 (mkOptions 5 30 "fibonacci" 5 60)
   <= pre_jitter_delay (3 + 1) (mkOptions 5 30 "fibonacci" 5 60))%Q.
Proof.
  apply (pre_jitter_delay_grows 3 (mkOptions 5 30 "fibonacci" 5 60)).
  - lia.
  - vm_compute. discriminate.
Defined.

End BackoffGrowth.

(** ** More on the retry loop *)
Section RetryRuns.
Import RetryManager.
Context {V : Type}.
Variable env : Env (V := V).
Variable operation_name : string.
Variable retry_options : RetryOptions.

Local Abbreviation max := (max_retries retry_options).
Local Abbreviation loop := (retry_loop env operation_name retry_options).
Local Abbreviation calls := (fun tr : list event => Z.of_nat (length (List.filter is_call tr))).
Local Abbreviation sleeps := (fun tr : list event => Z.of_nat (length (List.filter is_sleep tr))).

(** What one pass through the [try] block can leave behind. *)
Lemma attempt_shape (attempts : Z) (cb cb1 : CircuitBreaker) (tr tr1 : list event)
    (r : result V) :
  attempt env operation_name attempts cb tr = (r, cb1, tr1) ->
  (exists v, r = Ok v /\
             tr1 = tr ++ [EvSecurity; EvCall; EvHealthSuccess operation_name] /\
             state cb1 = CLOSED /\ failures cb1 = 0) \/
  (exists e pre, r = Raise e /\ tr1 = tr ++ pre /\
                 (pre = [] \/ pre = [EvSecurity] \/ pre = [EvSecurity; EvCall])).
Proof.
  unfold attempt. destruct (can_request _ cb) as [[|] cb0]; cbn [negb].
  - destruct (security env attempts) as [e|].
    + intros [= <- <- <-]. right. exists e, [EvSecurity]. auto.
    + destruct (fn env attempts) as [v|e]; intros [= <- <- <-].
      * left. exists v. auto.
      * right. exists e, [EvSecurity; EvCall]. auto.
  - intros [= <- <- <-]. right. eexists _, []. rewrite app_nil_r. auto.
Qed.

(** Everything a run of the loop from [attempts] on adds to the trace, and
    how it ends. *)
Lemma retry_loop_run (fuel : nat) :
  forall (attempts : Z) (last_error : option exn) (cb cb' : CircuitBreaker)
         (tr tr' : list event) (r : result V),
    loop fuel attempts last_error cb tr = Some (r, cb', tr') ->
    exists body final,
      tr' = tr ++ body ++ [final] /\
      calls body <= Z.max 0 (max - attempts) /\
      sleeps body <= Z.max 0 (max - attempts - 1) /\
      Forall (sleep_within (max_delay retry_options)) body /\
      List.filter is_health body = [] /\
      match r with
      | Ok v => final = EvHealthSuccess operation_name /\
                state cb' = CLOSED /\ failures cb' = 0
      | Raise e =>
          exists last,
            final = EvHealthError operation_name (str env last) /\
            e = RetryError ("Max retries reached (" +:+ pretty max +:+ ")") last
                  (Z.max attempts max) /\
            (attempts < max -> is_Some last) /\
            (max <= attempts -> last = last_error)
      end.
Proof.
  induction fuel as [|fuel IH]; intros attempts last_error cb cb' tr tr' r Hrun;
    [discriminate|].
  rewrite retry_loop_S in Hrun. destruct (Z.ltb_spec attempts max) as [Hlt|Hge].
  2:{ injection Hrun as <- <- <-. exists [], (EvHealthError operation_name (str env last_error)).
      simpl. repeat split; try lia; [constructor|].
      exists last_error. split; [reflexivity|]. split; [f_equal; lia|].
      split; [lia|reflexivity]. }
  destruct (attempt env operation_name attempts cb tr) as [[r1 cb1] tr1] eqn:Hatt.
  apply attempt_shape in Hatt as [(v & -> & -> & Hc & Hf)|(e & pre & -> & -> & Hpre)].
  { injection Hrun as <- <- <-.
    exists [EvSecurity; EvCall], (EvHealthSuccess operation_name).
    simpl. repeat split; try lia; auto. repeat constructor. }
  assert (calls pre <= 1 /\ sleeps pre = 0 /\ List.filter is_health pre = [] /\
          Forall (sleep_within (max_delay retry_options)) pre) as (Hpc & Hps & Hph & Hpw).
  { destruct Hpre as [-> | [-> | ->]]; simpl; repeat split; try lia; repeat constructor. }
  set (cb2 := record_failure (time_record_failure env attempts) cb1) in *.
  set (d := calculate_delay (attempts + 1) retry_options (jitter env attempts)) in *.
  assert (forall extra,
            (extra = [] \/ (extra = [EvSleep d] /\ attempts + 1 < max)) ->
            loop fuel (attempts + 1) (Some e) cb2 ((tr ++ pre) ++ extra)
            = Some (r, cb', tr') ->
            exists body final,
              tr' = tr ++ body ++ [final] /\
              calls body <= Z.max 0 (max - attempts) /\
              sleeps body <= Z.max 0 (max - attempts - 1) /\
              Forall (sleep_within (max_delay retry_options)) body /\
              List.filter is_health body = [] /\
              match r with
              | Ok v => final = EvHealthSuccess operation_name /\
                        state cb' = CLOSED /\ failures cb' = 0
              | Raise e0 =>
                  exists last,
                    final = EvHealthError operation_name (str env last) /\
                    e0 = RetryError ("Max retries reached (" +:+ pretty max +:+ ")") last
                           (Z.max attempts max) /\
                    (attempts < max -> is_Some last) /\
                    (max <= attempts -> last = last_error)
              end) as Hnext.
  { intros extra Hextra Hloop.
    destruct (IH _ _ _ _ _ _ _ Hloop) as (body & final & -> & Hcalls & Hsleeps & Hwithin & Hhealth & Hend).
    exists (pre ++ extra ++ body), final.
    assert (calls extra = 0 /\ List.filter is_health extra = [] /\
            Forall (sleep_within (max_delay retry_options)) extra /\
            (sleeps extra = 0 \/ (sleeps extra = 1 /\ attempts + 1 < max)))
      as (Hec & Heh & Hew & Hes).
    { destruct Hextra as [-> | [-> Hroom]]; simpl; repeat split; auto.
      constructor; [|constructor]. apply py_min_le_r. }
    split; [now rewrite <- !app_assoc|].
    rewrite !List.filter_app, !length_app, !Nat2Z.inj_add, Hph, Heh, Hhealth.
    split; [lia|]. split; [lia|]. split; [now rewrite !Forall_app|]. split; [reflexivity|].
    destruct r as [v|e0]; [exact Hend|].
    destruct Hend as (last & -> & -> & Hsome & Hkeep). exists last.
    split; [reflexivity|]. split; [f_equal; lia|]. split; [|lia].
    intros _. destruct (Z.lt_ge_cases (attempts + 1) max) as [H1|H1]; [now apply Hsome|].
    rewrite (Hkeep H1). eauto. }
  destruct (is_network_error e).
  - apply (Hnext []); [now left|]. now rewrite app_nil_r.
  - destruct (Z.leb_spec max (attempts + 1)) as [Hlast|Hmore].
    + injection Hrun as <- <- <-.
      exists pre, (EvHealthError operation_name (str env (Some e))).
      split; [now rewrite <- app_assoc|].
      split; [lia|]. split; [lia|]. split; [exact Hpw|]. split; [exact Hph|].
      exists (Some e). split; [reflexivity|]. split; [f_equal; lia|].
      split; [eauto|lia].
    + apply (Hnext [EvSleep d]); [now right|exact Hrun].
Qed.

End RetryRuns.

Section RetryGuarantees.
Import RetryManager.
Context {V : Type}.
Variable env : Env (V := V).
Variable operation_name : string.
Variable retry_options : RetryOptions.

Local Abbreviation max := (max_retries retry_options).
Local Abbreviation loop := (retry_loop env operation_name retry_options).

(** X5.  Whatever the operation, the security hook, the clock and the
    breaker do, a call of [retry] comes to an end having invoked the
    operation at most [max_retries] times and slept at most
    [max_retries - 1] times, no sleep being longer than [max_delay]. *)
Theorem retry_bounded (cb : CircuitBreaker) :
  exists r cb' tr,
    retry env operation_name retry_options cb = Some (r, cb', tr) /\
    (length (List.filter is_call tr) <= Z.to_nat max)%nat /\
    (length (List.filter is_sleep tr) <= Z.to_nat (max - 1))%nat /\
    Forall (sleep_within (max_delay retry_options)) tr.
Proof.
  destruct (retry_total env operation_name retry_options cb) as [[[r cb'] tr] Hrun].
  exists r, cb', tr. split; [exact Hrun|].
  destruct (retry_loop_run env operation_name retry_options _ _ _ _ _ _ _ _ Hrun)
    as (body & final & -> & Hcalls & Hsleeps & Hwithin & Hhealth & Hend).
  assert (is_call final = false /\ is_sleep final = false /\
          sleep_within (max_delay retry_options) final) as (Hc & Hs & Hw).
  { destruct r as [v|e]; [destruct Hend as (-> & _)|destruct Hend as (last & -> & _)];
      simpl; auto. }
  simpl. rewrite !List.filter_app. simpl. rewrite Hc, Hs, !app_nil_r.
  split; [lia|]. split; [lia|]. apply Forall_app. split; [exact Hwithin|].
  now constructor.
Qed.




(** With [k] iterations left, all of them ending in a network error. *)
Lemma retry_loop_network (k : nat) :
  forall (extra : nat) (attempts : Z) (last_error : option exn)
         (cb : CircuitBreaker) (tr : list event),
    attempts + Z.of_nat k = max ->
    ((0 < k)%nat -> state cb = CLOSED /\ failures cb + Z.of_nat k <= failure_threshold cb) ->
    (forall i, attempts <= i < max ->
       exists e, is_network_error e = true /\
                 (security env i = Some e \/ (security env i = None /\ fn env i = Raise e))) ->
    exists e cb' tr',
      loop (S (k + extra)) attempts last_error cb tr = Some (Raise e, cb', tr ++ tr') /\
      List.filter is_sleep tr' = [].
Proof.
  induction k as [|k IH]; intros extra attempts last_error cb tr Hmax Hcb Hfail.
  - rewrite retry_loop_S. destruct (Z.ltb_spec attempts max); [lia|].
    eexists _, _, _. split; [reflexivity|reflexivity].
  - change (S (S k + extra)) with (S (S (k + extra))). rewrite retry_loop_S.
    destruct (Z.ltb_spec attempts max); [|lia].
    destruct Hcb as [Hclosed Hroom]; [lia|].
    destruct (Hfail attempts ltac:(lia)) as (e & Hnet & Hwhere).
    unfold attempt. rewrite (can_request_closed _ _ Hclosed). cbn [negb].
    assert (forall pre,
              exists e' cb' tr',
                loop (S (k + extra)) (attempts + 1) (Some e)
                     (record_failure (time_record_failure env attempts) cb) (tr ++ pre)
                = Some (Raise e', cb', (tr ++ pre) ++ tr') /\
                List.filter is_sleep tr' = []) as Hnext.
    { intros pre. apply IH; [lia| |].
      - intros Hk. split; [apply record_failure_stays_closed; [assumption|lia]|].
        unfold record_failure; simpl. lia.
      - intros i Hi. apply Hfail. lia. }
    destruct Hwhere as [Hs|[Hs Hf]].
    + rewrite Hs, Hnet. destruct (Hnext [EvSecurity]) as (e' & cb' & tr' & Hrun & Hsl).
      exists e', cb', ([EvSecurity] ++ tr'). rewrite Hrun, <- app_assoc.
      split; [reflexivity|exact Hsl].
    + rewrite Hs, Hf, Hnet. destruct (Hnext [EvSecurity; EvCall]) as (e' & cb' & tr' & Hrun & Hsl).
      exists e', cb', ([EvSecurity; EvCall] ++ tr'). rewrite Hrun, <- app_assoc.
      split; [reflexivity|exact Hsl].
Qed.

(** X8.  Timeouts and client errors are retried at once: if every attempt
    ends in [asyncio.TimeoutError] or an aiohttp [ClientError] (raised by
    the operation or by the security hook) and the breaker stays Closed,
    [retry] gives up without having slept at all. *)
Theorem retry_network_errors_never_sleep (cb : CircuitBreaker) :
  state cb = CLOSED ->
  failures cb + max <= failure_threshold cb ->
  (forall i, 0 <= i < max ->
     exists e, is_network_error e = true /\
               (security env i = Some e \/ (security env i = None /\ fn env i = Raise e))) ->
  exists e cb' tr,
    retry env operation_name retry_options cb = Some (Raise e, cb', tr) /\
    List.filter is_sleep tr = [].
Proof.
  intros Hclosed Hroom Hfail. unfold retry.
  destruct (Z.le_gt_cases max 0) as [Hneg|Hpos].
  - replace (Z.to_nat max) with O by lia. simpl.
    destruct (Z.ltb_spec 0 max); [lia|]. eexists _, _, _. split; reflexivity.
  - destruct (retry_loop_network (Z.to_nat max) 0 0 None cb []) as (e & cb' & tr & Hrun & Hsl).
    + lia.
    + intros _. split; [assumption|lia].
    + exact Hfail.
    + rewrite Nat.add_0_r in Hrun. eauto.
Qed.

End RetryGuarantees.

Section RetryGuaranteesWitnesses.
Import RetryManager.


Lemma retry_network_errors_never_sleep_witness :
  exists e cb' tr,
    retry timing_out_env "book" three_attempts (new_breaker None None)
    = Some (Raise e, cb', tr) /\
    List.filter is_sleep tr = [].
Proof.
  apply (retry_network_errors_never_sleep timing_out_env "book" three_attempts
           (new_breaker None None)).
  - reflexivity.
  - simpl. lia.
  - intros i _. exists TimeoutError. split; [reflexivity|]. right. split; reflexivity.
Defined.

End RetryGuaranteesWitnesses.

(** ** More on the prioritization engine *)
Section PrioritizationSuccess.
Import PriorityManager.

Lemma validate_loop_elem (clock : nat -> Z) (l : list Slot) :
  forall i s, s ∈ validate_loop clock i l [] ->
              exists k, l !! k = Some s /\ slot_ok (clock (i + k)%nat) s.
Proof.
  induction l as [|x l IH]; intros i s Hin.
  - now apply elem_of_nil in Hin.
  - rewrite validate_loop_cons in Hin. apply elem_of_app in Hin as [Hin|Hin].
    + destruct (decide (slot_ok (clock i) x)) as [Hok|]; [|now apply elem_of_nil in Hin].
      apply list_elem_of_singleton in Hin as ->. exists 0%nat.
      rewrite Nat.add_0_r. auto.
    + destruct (IH _ _ Hin) as (k & Hk & Hok). exists (S k).
      rewrite Nat.add_succ_r. auto.
Qed.

Lemma validate_loop_length (clock : nat -> Z) (l : list Slot) :
  forall i, (length (validate_loop clock i l []) <= length l)%nat.
Proof.
  induction l as [|x l IH]; intros i; [reflexivity|].
  rewrite validate_loop_cons, length_app. specialize (IH (S i)).
  destruct (decide (slot_ok (clock i) x)); simpl; lia.
Qed.

(** X9.  When the security hook returns, the entry point returns the valid
    slots and only them, ranked: the result is the ranking of what
    validation kept, every returned slot is one of the given slots with a
    recognized visa type and at least one spot, and nothing is added.  One
    event is appended to the history, counting the given and the returned
    slots (never more returned than given); it is what the statistics then
    show as the last prioritization, and a success is reported to the
    health monitor. *)
Theorem prioritize_returns_valid_ranked (env : Env) (slots : list Slot)
    (history : list PrioritizationEvent) (tr : list event) :
  security env = None ->
  exists ranked logged,
    prioritize_slots_for_slot_checker env slots history tr
    = (Ok ranked, history ++ [logged], tr ++ [EvSecurity; EvHealthSuccess "prioritization"]) /\
    Permutation (validate_slots (clock env) slots) ranked /\
    (forall s, s ∈ ranked ->
       s ∈ slots /\ (type s = NACIONAL \/ type s = SCHENGEN) /\ 0 < available_spots s) /\
    input_count logged = length slots /\
    output_count logged = length ranked /\
    (output_count logged <= input_count logged)%nat /\
    last_prioritization (get_prioritization_stats (history ++ [logged])) = Some logged /\
    total_prioritizations (get_prioritization_stats (history ++ [logged]))
    = S (length history).
Proof.
  intros Hsec. unfold prioritize_slots_for_slot_checker, try_body. rewrite Hsec.
  eexists _, _. split; [reflexivity|].
  pose proof (sorted_perm priority_key tuple_lt (validate_slots (clock env) slots)) as Hperm.
  fold (apply_prioritization_strategy (validate_slots (clock env) slots)) in Hperm.
  split; [exact Hperm|]. split; [|split; [reflexivity|split; [reflexivity|split]]].
  - intros s Hs. rewrite <- Hperm in Hs.
    destruct (validate_loop_elem _ _ _ _ Hs) as (k & Hk & Hty & Hsp & _).
    split; [eapply list_elem_of_lookup_2; exact Hk|]. auto.
  - simpl. rewrite <- Hperm. apply validate_loop_length.
  - unfold get_prioritization_stats. rewrite length_app, Nat.add_1_r. simpl.
    rewrite last_snoc. auto.
Qed.

Lemma prioritize_returns_valid_ranked_witness :
  exists ranked logged,
    prioritize_slots_for_slot_checker hook_returns
      [mkSlot "s" 300 SCHENGEN 1; mkSlot "old" 50 NACIONAL 1; mkSlot "n" 400 NACIONAL 2] [] []
    = (Ok ranked, [] ++ [logged], [] ++ [EvSecurity; EvHealthSuccess "prioritization"]) /\
    ranked = [mkSlot "n" 400 NACIONAL 2; mkSlot "s" 300 SCHENGEN 1] /\
    output_count logged = 2%nat.
Proof.
  destruct (prioritize_returns_valid_ranked hook_returns
              [mkSlot "s" 300 SCHENGEN 1; mkSlot "old" 50 NACIONAL 1; mkSlot "n" 400 NACIONAL 2]
              [] [] eq_refl) as (ranked & logged & Hrun & _).
  exists ranked, logged. split; [exact Hrun|].
  vm_compute in Hrun. injection Hrun as <- <-. split; reflexivity.
Defined.

End PrioritizationSuccess.

Section SlotTrendsAndStats.
Import PriorityManager.

Lemma foldl_min_spec {A : Type} (key : A -> Z) (rest : list A) :
  forall x,
    let m := foldl (fun best y => if key y <? key best then y else best) x rest in
    m ∈ x :: rest /\ forall y, y ∈ x :: rest -> key m <= key y.
Proof.
  induction rest as [|z rest IH]; intros x; simpl.
  - split; [apply list_elem_of_here|]. intros y Hy.
    apply list_elem_of_singleton in Hy as ->. lia.
  - destruct (IH (if key z <? key x then z else x)) as [Hin Hle]. split.
    + apply elem_of_cons in Hin as [->|Hin].
      * destruct (key z <? key x); [right; left|left].
      * right. now right.
    + intros y Hy.
      assert (key (if key z <? key x then z else x) <= key x /\
              key (if key z <? key x then z else x) <= key z) as [Hx Hz]
        by (destruct (Z.ltb_spec (key z) (key x)); lia).
      pose proof (Hle _ (list_elem_of_here _ _)) as Hm.
      apply elem_of_cons in Hy as [->|Hy]; [lia|].
      apply elem_of_cons in Hy as [->|Hy]; [lia|].
      apply Hle. now right.
Qed.

Lemma foldl_max_spec {A : Type} (key : A -> Z) (rest : list A) :
  forall x,
    let m := foldl (fun best y => if key best <? key y then y else best) x rest in
    m ∈ x :: rest /\ forall y, y ∈ x :: rest -> key y <= key m.
Proof.
  induction rest as [|z rest IH]; intros x; simpl.
  - split; [apply list_elem_of_here|]. intros y Hy.
    apply list_elem_of_singleton in Hy as ->. lia.
  - destruct (IH (if key x <? key z then z else x)) as [Hin Hle]. split.
    + apply elem_of_cons in Hin as [->|Hin].
      * destruct (key x <? key z); [right; left|left].
      * right. now right.
    + intros y Hy.
      assert (key x <= key (if key x <? key z then z else x) /\
              key z <= key (if key x <? key z then z else x)) as [Hx Hz]
        by (destruct (Z.ltb_spec (key x) (key z)); lia).
      pose proof (Hle _ (list_elem_of_here _ _)) as Hm.
      apply elem_of_cons in Hy as [->|Hy]; [lia|].
      apply elem_of_cons in Hy as [->|Hy]; [lia|].
      apply Hle. now right.
Qed.

Lemma visa_counts (l : list Slot) :
  (length (filter (fun slot => type slot = NACIONAL) l)
   + length (filter (fun slot => type slot = SCHENGEN) l) <= length l)%nat.
Proof.
  induction l as [|s l IH]; [reflexivity|].
  rewrite !filter_cons. repeat case_decide; simpl; try lia. congruence.
Qed.

(** X10.  [analyze_slot_trends] raises [ValueError] on an empty list.  On
    any other list it returns: the slot count; the numbers of NACIONAL and
    of SCHENGEN slots, together never more than the count; the dates of two
    slots of the list between which all dates lie; and an average per day
    that is positive and at most the count (the number of days it divides
    by is at least 1). *)
Theorem analyze_slot_trends_summary (isoformat : Z -> string) :
  (exists msg, analyze_slot_trends isoformat [] = Raise (OtherException "ValueError" msg)) /\
  (forall slots, slots <> [] ->
     exists earliest latest trends,
       analyze_slot_trends isoformat slots = Ok trends /\
       earliest ∈ slots /\ latest ∈ slots /\
       (forall s, s ∈ slots -> date earliest <= date s <= date latest) /\
       earliest_slot_date trends = isoformat (date earliest) /\
       latest_slot_date trends = isoformat (date latest) /\
       total_slots trends = length slots /\
       (nacional_slots trends + schengen_slots trends <= total_slots trends)%nat /\
       (0 < average_slots_per_day trends)%Q /\
       (average_slots_per_day trends <= inject_Z (Z.of_nat (length slots)))%Q).
Proof.
  split; [eexists; reflexivity|].
  intros [|x rest] Hne; [congruence|]. unfold analyze_slot_trends, min_by, max_by.
  destruct (foldl_min_spec date rest x) as [Hmin_in Hmin].
  destruct (foldl_max_spec date rest x) as [Hmax_in Hmax].
  set (earliest := foldl _ x rest) in *. set (latest := foldl _ x rest) in Hmax_in, Hmax |- *.
  exists earliest, latest. eexists. split; [reflexivity|]. simpl.
  split; [exact Hmin_in|]. split; [exact Hmax_in|].
  split; [intros s Hs; split; [now apply Hmin|now apply Hmax]|].
  split; [reflexivity|]. split; [reflexivity|]. split; [reflexivity|].
  split.
  - apply (visa_counts (x :: rest)).
  - assert (0 <= days (date latest - date earliest)) as Hdays.
    { unfold days. apply Z.div_pos; [|lia]. specialize (Hmax _ Hmin_in). lia. }
    set (n := Z.of_nat (S (length rest))).
    assert (1 <= n) as Hn by (unfold n; lia).
    set (d := days (date latest - date earliest) + 1) in *.
    assert (inject_Z 1 <= inject_Z d)%Q as Hd by (rewrite <- Zle_Qle; lia).
    assert (inject_Z 1 <= inject_Z n)%Q as Hn' by (rewrite <- Zle_Qle; lia).
    change (inject_Z 1) with 1%Q in *.
    generalize dependent (inject_Z d). generalize dependent (inject_Z n).
    intros qn Hqn qd Hqd. split.
    + apply Qlt_shift_div_l; lra.
    + apply Qle_shift_div_r; [lra|]. nra.
Qed.

Lemma analyze_slot_trends_summary_witness :
  exists earliest latest trends,
    analyze_slot_trends (fun _ => ""%string)
      [mkSlot "a" 172800000000 SCHENGEN 1; mkSlot "b" 0 NACIONAL 1] = Ok trends /\
    date earliest = 0 /\ date latest = 172800000000 /\ total_slots trends = 2%nat.
Proof.
  destruct (proj2 (analyze_slot_trends_summary (fun _ => ""%string))
              [mkSlot "a" 172800000000 SCHENGEN 1; mkSlot "b" 0 NACIONAL 1]
              ltac:(discriminate))
    as (earliest & latest & trends & Hrun & He & Hl & Hall & _ & _ & Htotal & _).
  exists earliest, latest, trends. split; [exact Hrun|].
  pose proof (Hall _ (list_elem_of_here _ _)) as [H1 H2].
  pose proof (Hall (mkSlot "b" 0 NACIONAL 1)
                ltac:(right; left)) as [H3 H4].
  simpl in *.
  assert (0 <= date earliest /\ date latest <= 172800000000) as [H5 H6].
  { split.
    - apply elem_of_cons in He as [->|He]; [simpl; lia|].
      apply list_elem_of_singleton in He as ->. simpl. lia.
    - apply elem_of_cons in Hl as [->|Hl]; [simpl; lia|].
      apply list_elem_of_singleton in Hl as ->. simpl. lia. }
  repeat split; [lia|lia|exact Htotal].
Defined.




End SlotTrendsAndStats.

(** ** More on the health monitor *)
Section OverallHealth.
Import HealthCheck.

Lemma critical_or_degraded_spec (m : Monitor) :
  (critical_or_degraded m = CRITICAL <->
   exists c comp, components m !! c = Some comp /\ status comp = CRITICAL) /\
  critical_or_degraded m <> HEALTHY /\ critical_or_degraded m <> UNKNOWN.
Proof.
  unfold critical_or_degraded. case_bool_decide as Hex.
  - split; [|split; discriminate]. split; [intros _; exact Hex|reflexivity].
  - split; [|split; discriminate]. split; [discriminate|]. intros H. now destruct Hex.
Qed.

(** X12.  Whenever [update_overall_health] yields a status, that status is
    Critical exactly if some component is Critical; it is Healthy only if
    every component is Healthy, the error rate is below its threshold and
    the three sampled resource usages are below theirs; it is never
    Unknown. *)
Theorem update_overall_health_classifies (thresholds : Thresholds) (total_checks : Z)
    (system : option SystemHealth) (m : Monitor) (overall : HealthStatus) :
  update_overall_health thresholds total_checks system m = Ok overall ->
  (overall = CRITICAL <->
   exists c comp, components m !! c = Some comp /\ status comp = CRITICAL) /\
  (overall = HEALTHY ->
   (forall c comp, components m !! c = Some comp -> status comp = HEALTHY) /\
   (exists rate, error_rate total_checks m = Ok rate /\
                 (rate < error_rate_threshold thresholds)%Q) /\
   exists sys, system = Some sys /\
               (cpu_usage sys < cpu_threshold thresholds)%Q /\
               (memory_usage sys < memory_threshold thresholds)%Q /\
               (disk_usage sys < disk_threshold thresholds)%Q) /\
  overall <> UNKNOWN.
Proof.
  unfold update_overall_health.
  destruct (critical_or_degraded_spec m) as (Hcrit & Hnh & Hnu).
  destruct (error_rate total_checks m) as [rate|e]; [|discriminate].
  assert (forall a b, Qltb a b = true -> (a < b)%Q) as Hlt.
  { intros a b H. unfold Qltb in H. apply negb_true_iff in H.
    destruct (Qlt_le_dec a b) as [|Hle]; [assumption|].
    apply Qle_bool_iff in Hle. congruence. }
  case_bool_decide as Hall; simpl.
  2:{ intros [= <-]. split; [exact Hcrit|]. split; [intros H; now destruct Hnh|exact Hnu]. }
  destruct (Qltb rate _) eqn:Hrate; simpl.
  2:{ intros [= <-]. split; [exact Hcrit|]. split; [intros H; now destruct Hnh|exact Hnu]. }
  destruct system as [sys|]; [|discriminate].
  destruct (Qltb (cpu_usage sys) _) eqn:Hcpu; simpl;
    [destruct (Qltb (memory_usage sys) _) eqn:Hmem; simpl;
     [destruct (Qltb (disk_usage sys) _) eqn:Hdisk; simpl|]|];
    intros [= <-];
    try (split; [exact Hcrit|]; split; [intros H; now destruct Hnh|exact Hnu]).
  split; [|split; [|discriminate]].
  - split; [discriminate|]. intros (c & comp & Hc & Hs).
    specialize (Hall c comp Hc). simpl in Hall. congruence.
  - intros _. split; [exact Hall|]. split; [eauto|]. exists sys. auto.
Qed.

Lemma update_overall_health_classifies_witness :
  exists c comp, components degraded_monitor !! c = Some comp /\ status comp = CRITICAL.
Proof.
  apply (update_overall_health_classifies usual_thresholds 1 (Some idle_system)
           degraded_monitor CRITICAL).
  - vm_compute. reflexivity.
  - reflexivity.
Defined.

(** X13.  [update_overall_health] divides by zero when errors have been
    counted but no health check has: with [total_checks = 0] and a
    non-empty [error_counts] it raises [ZeroDivisionError].  Once a check
    has been counted and the system metrics sampled it always yields a
    status.  With nothing monitored and no error counted, that status is
    Healthy as soon as the resource usages are below their thresholds and
    the error-rate threshold is positive. *)
Theorem update_overall_health_edges (thresholds : Thresholds) (sys : SystemHealth)
    (m : Monitor) :
  (error_counts m <> ∅ ->
   forall system,
     update_overall_health thresholds 0 system m
     = Raise (OtherException "ZeroDivisionError" "division by zero")) /\
  (forall total_checks, total_checks <> 0 ->
     exists overall, update_overall_health thresholds total_checks (Some sys) m = Ok overall) /\
  (components m = ∅ -> error_counts m = ∅ ->
   (0 < error_rate_threshold thresholds)%Q ->
   (cpu_usage sys < cpu_threshold thresholds)%Q ->
   (memory_usage sys < memory_threshold thresholds)%Q ->
   (disk_usage sys < disk_threshold thresholds)%Q ->
   forall total_checks,
     update_overall_health thresholds total_checks (Some sys) m = Ok HEALTHY).
Proof.
  assert (forall a b, (a < b)%Q -> Qltb a b = true) as Hlt.
  { intros a b H. unfold Qltb. apply negb_true_iff.
    destruct (Qle_bool b a) eqn:E; [|reflexivity]. apply Qle_bool_iff in E. lra. }
  split; [|split].
  - intros Hne system. unfold update_overall_health, error_rate.
    rewrite decide_False by exact Hne. reflexivity.
  - intros total_checks Htc. unfold update_overall_health, error_rate.
    destruct (decide (error_counts m = ∅)) as [|Hne].
    + repeat (case_match; simpl); eauto.
    + assert (size (error_counts m) <> 0%nat) as Hsize
        by (intros H; apply map_size_empty_iff in H; contradiction).
      destruct (Z.eqb_spec (total_checks * Z.of_nat (size (error_counts m))) 0) as [H0|_];
        [nia|].
      repeat (case_match; simpl); eauto.
  - intros Hcomp Hcounts Hrate Hcpu Hmem Hdisk total_checks.
    unfold update_overall_health, error_rate.
    rewrite decide_True by exact Hcounts. rewrite Hcomp.
    rewrite bool_decide_eq_true_2 by apply map_Forall_empty.
    rewrite !Hlt by assumption. reflexivity.
Qed.

Lemma update_overall_health_edges_witness :
  update_overall_health usual_thresholds 0 None degraded_monitor
  = Raise (OtherException "ZeroDivisionError" "division by zero") /\
  update_overall_health usual_thresholds 7 (Some idle_system) (mkMonitor ∅ ∅) = Ok HEALTHY.
Proof.
  destruct (update_overall_health_edges usual_thresholds idle_system degraded_monitor)
    as (Hzero & _ & _).
  destruct (update_overall_health_edges usual_thresholds idle_system (mkMonitor ∅ ∅))
    as (_ & _ & Hempty).
  split.
  - apply Hzero. vm_compute. discriminate.
  - apply Hempty; try reflexivity.
Defined.

End OverallHealth.

Section ErrorCounts.
Import HealthCheck.

Lemma check_repeatedly_snoc (component : string) (replies : list (string * probe_outcome))
    (now : string) (reply : probe_outcome) (m : Monitor) :
  check_repeatedly component (replies ++ [(now, reply)]) m
  = check_component now component reply (check_repeatedly component replies m).
Proof. unfold check_repeatedly. now rewrite foldl_app. Qed.

Lemma check_component_count (now component : string) (reply : probe_outcome) (m : Monitor) :
  error_counts (check_component now component reply m) !! component
  = Some (if is_200 reply then 0 else default 0 (error_counts m !! component) + 1).
Proof.
  pose proof (check_component_self component now reply m) as H.
  destruct reply as [code rt| |err]; simpl in *; [destruct (code =? 200)|..]; apply H.
Qed.

Lemma check_repeatedly_failures (component : string) (replies : list (string * probe_outcome))
    (m : Monitor) :
  Forall (fun r => is_200 r.2 = false) replies ->
  default 0 (error_counts (check_repeatedly component replies m) !! component)
  = default 0 (error_counts m !! component) + Z.of_nat (length replies).
Proof.
  induction replies as [|[now reply] replies IH] using rev_ind; intros Hall.
  - simpl. lia.
  - apply Forall_app in Hall as [Hall Hlast]. rewrite Forall_singleton in Hlast. simpl in Hlast.
    rewrite check_repeatedly_snoc, check_component_count, Hlast, length_app. simpl.
    rewrite IH by exact Hall. lia.
Qed.

(** X14.  The error count of a component is the number of its probes that
    failed in a row since its last 200 reply: after any probes, a 200
    reply, and then [n] replies that are not 200 (other status codes,
    timeouts, exceptions), the count is [n]; if no reply so far was 200,
    the count is what it was at the start plus the number of replies. *)
Theorem error_count_is_failure_streak (component : string) (m : Monitor)
    (before after : list (string * probe_outcome)) (now : string) (response_time : Q) :
  Forall (fun r => is_200 r.2 = false) after ->
  error_counts (check_repeatedly component
                  (before ++ (now, Responded 200 response_time) :: after) m) !! component
  = Some (Z.of_nat (length after)) /\
  (after <> [] ->
   error_counts (check_repeatedly component after m) !! component
   = Some (default 0 (error_counts m !! component) + Z.of_nat (length after))).
Proof.
  intros Hall. split.
  - replace (before ++ (now, Responded 200 response_time) :: after)
      with ((before ++ [(now, Responded 200 response_time)]) ++ after)
      by now rewrite <- app_assoc.
    unfold check_repeatedly at 1. rewrite foldl_app.
    fold (check_repeatedly component (before ++ [(now, Responded 200 response_time)]) m).
    set (m1 := check_repeatedly component (before ++ _) m).
    fold (check_repeatedly component after m1).
    assert (error_counts m1 !! component = Some 0) as H0.
    { unfold m1. rewrite check_repeatedly_snoc, check_component_count. reflexivity. }
    destruct after as [|[now' reply] after] using rev_ind; [exact H0|].
    clear IHafter. apply Forall_app in Hall as [Hall Hlast].
    rewrite Forall_singleton in Hlast. simpl in Hlast.
    rewrite check_repeatedly_snoc, check_component_count, Hlast.
    rewrite (check_repeatedly_failures _ _ _ Hall), H0, length_app. simpl. f_equal. lia.
  - intros Hne. destruct after as [|[now' reply] after] using rev_ind; [congruence|].
    clear IHafter. apply Forall_app in Hall as [Hall Hlast].
    rewrite Forall_singleton in Hlast. simpl in Hlast.
    rewrite check_repeatedly_snoc, check_component_count, Hlast.
    rewrite (check_repeatedly_failures _ _ _ Hall), length_app. simpl. f_equal. lia.
Qed.

Lemma error_count_is_failure_streak_witness :
  error_counts (check_repeatedly "db"
                  ([("t0"%string, TimedOut)] ++ ("t1"%string, Responded 200 (1 # 2))
                     :: [("t2"%string, Responded 503 (1 # 2));
                         ("t3"%string, Failed "refused")])
                  (mkMonitor ∅ ∅)) !! "db"%string
  = Some 2.
Proof.
  apply (error_count_is_failure_streak "db" (mkMonitor ∅ ∅) [("t0"%string, TimedOut)]
           [("t2"%string, Responded 503 (1 # 2)); ("t3"%string, Failed "refused")]
           "t1" (1 # 2)).
  repeat constructor.
Defined.

Lemma check_component_no_critical (now component : string) (code : Z) (rt : Q) (m : Monitor) :
  (forall c comp, components m !! c = Some comp -> status comp <> CRITICAL) ->
  forall c comp,
    components (check_component now component (Responded code rt) m) !! c = Some comp ->
    status comp <> CRITICAL.
Proof.
  intros Hno c comp. unfold check_component. destruct (code =? 200); simpl;
    rewrite lookup_insert; case_decide; try apply Hno; intros [= <-]; discriminate.
Qed.

(** X15.  Replies with a status other than 200 degrade but never make
    anything Critical: if no component was Critical before and every probe
    of [check_components] gets a reply, then whatever the status codes,
    [update_overall_health] does not yield Critical afterwards. *)
Theorem replies_never_make_critical (probe : string -> string -> probe_outcome)
    (now : string -> string) (endpoints : list (string * string)) (m : Monitor)
    (thresholds : Thresholds) (total_checks : Z) (system : option SystemHealth) :
  (forall c comp, components m !! c = Some comp -> status comp <> CRITICAL) ->
  (forall c url, (c, url) ∈ endpoints -> exists code rt, probe c url = Responded code rt) ->
  update_overall_health thresholds total_checks system (check_components probe now endpoints m)
  <> Ok CRITICAL.
Proof.
  intros Hno Hreply Hcrit.
  apply update_overall_health_classifies in Hcrit as ([Hex _] & _).
  destruct (Hex eq_refl) as (c & comp & Hc & Hs). clear Hex.
  revert m Hno Hc. induction endpoints as [|[c0 url] rest IH]; intros m Hno Hc.
  - simpl in Hc. exact (Hno _ _ Hc Hs).
  - unfold check_components in *. simpl in Hc.
    destruct (Hreply c0 url (list_elem_of_here _ _)) as (code & rt & Hprobe).
    rewrite Hprobe in Hc. eapply IH; [| |exact Hc].
    + intros c' url' Hin. apply Hreply. now right.
    + now apply check_component_no_critical.
Qed.

(** The scenario of the specification, as the code has it: five rounds in
    which the endpoint answers 503 leave the component Degraded with error
    count 5, and the overall status is not Critical. *)
Lemma replies_never_make_critical_witness :
  update_overall_health usual_thresholds 5 (Some idle_system)
    (check_components (fun _ _ => Responded 503 (1 # 4)) (fun _ => "t"%string)
       [("api", "http://api/health")]%string
       (mkMonitor {[ "api"%string := 4 ]}
                  {[ "api"%string := mkHealth DEGRADED (1 # 4) "t" None ]}))
  <> Ok CRITICAL.
Proof.
  apply replies_never_make_critical.
  - intros c comp. cbn [components]. rewrite lookup_singleton_Some.
    intros [_ <-]. discriminate.
  - intros c url _. eauto.
Defined.

End ErrorCounts.

Section RetryHealthReports.
Import RetryManager.
Context {V : Type}.
Variable env : Env (V := V).
Variable operation_name : string.
Variable retry_options : RetryOptions.



End RetryHealthReports.

Section Recovery.
Import HealthCheck.

Variable component : string.
Variable reprobe : nat -> probe_outcome.
Variable retry_base_delay : Z.





End Recovery.

Section RecoveryWitness.
Import HealthCheck.


End RecoveryWitness.

(** ** The orchestrator: configuration and lock table *)
Section ValidateConfig.
Import VFSBookingBot.

Lemma first_missing_none (config : gmap string pyval) (keys : list string) :
  first_missing config keys = None <-> forall k, k ∈ keys -> is_Some (config !! k).
Proof.
  induction keys as [|key keys IH]; simpl.
  - split; [intros _ k Hk; now apply elem_of_nil in Hk|reflexivity].
  - case_bool_decide as Hnone.
    + split; [discriminate|]. intros H. specialize (H key (list_elem_of_here _ _)).
      rewrite Hnone in H. now destruct H.
    + rewrite IH. split.
      * intros H k Hk. apply elem_of_cons in Hk as [->|Hk]; [|now apply H].
        now apply not_eq_None_Some.
      * intros H k Hk. apply H. now right.
Qed.

Lemma first_missing_some (config : gmap string pyval) (before after : list string)
    (key : string) :
  (forall k, k ∈ before -> is_Some (config !! k)) ->
  config !! key = None ->
  first_missing config (before ++ key :: after) = Some key.
Proof.
  intros Hbefore Hnone. induction before as [|k before IH]; simpl.
  - now rewrite bool_decide_eq_true_2.
  - rewrite bool_decide_eq_false_2.
    + apply IH. intros k' Hk'. apply Hbefore. now right.
    + destruct (Hbefore k (list_elem_of_here _ _)) as [v Hv]. congruence.
Qed.

(** X18.  [validate_config] accepts a configuration exactly if each of the
    ten required keys is present (with whatever value, [None] included) and
    [rate_limit_per_second] and [check_interval] each hold a positive
    [int] (or [True], which Python counts as one).  When a required key is
    missing, the error names the first missing key in the order of the
    list. *)
Theorem validate_config_accepts (config : gmap string pyval) :
  (validate_config config = Ok tt <->
   (forall k, k ∈ required_keys -> is_Some (config !! k)) /\
   (exists v, config !! "rate_limit_per_second"%string = Some v /\ positive_int v = true) /\
   (exists v, config !! "check_interval"%string = Some v /\ positive_int v = true)) /\
  (forall before key after,
     required_keys = before ++ key :: after ->
     (forall k, k ∈ before -> is_Some (config !! k)) ->
     config !! key = None ->
     validate_config config
     = Raise (OtherException "ValueError"
                ("Missing required configuration key: " +:+ key))).
Proof.
  split.
  - unfold validate_config. split.
    + destruct (first_missing config required_keys) eqn:Hmiss; [discriminate|].
      pose proof (proj1 (first_missing_none _ _) Hmiss) as Hkeys.
      destruct (config !! "rate_limit_per_second"%string) as [rate|]; [|discriminate].
      destruct (positive_int rate) eqn:Hrate; [|discriminate]. simpl.
      destruct (config !! "check_interval"%string) as [interval|]; [|discriminate].
      destruct (positive_int interval) eqn:Hint; [|discriminate]. intros _.
      split; [exact Hkeys|]. split; eauto.
    + intros (Hkeys & (rate & Hr & Hrate) & (interval & Hi & Hint)).
      rewrite (proj2 (first_missing_none _ _) Hkeys), Hr, Hrate, Hi, Hint. reflexivity.
  - intros before key after Hsplit Hbefore Hnone. unfold validate_config.
    rewrite Hsplit, (first_missing_some _ _ _ _ Hbefore Hnone). reflexivity.
Qed.

Lemma validate_config_accepts_witness :
  validate_config minimal_config = Ok tt /\
  validate_config (delete "check_interval"%string minimal_config)
  = Raise (OtherException "ValueError" "Missing required configuration key: check_interval").
Proof.
  split.
  - apply (proj1 (validate_config_accepts minimal_config)). split; [|split].
    + intros k Hk. unfold required_keys in Hk.
      repeat (apply elem_of_cons in Hk as [->|Hk]; [vm_compute; eauto|]).
      now apply elem_of_nil in Hk.
    + exists (PyInt 5). split; reflexivity.
    + exists (PyInt 300). split; reflexivity.
  - apply (proj2 (validate_config_accepts (delete "check_interval"%string minimal_config))
             ["headless"; "user_agent"; "vfs_username"; "vfs_password";
              "rate_limit_per_second"]%string "check_interval"
             ["max_retries"; "retry_delay"; "health_check_interval"; "log_level"]%string).
    + reflexivity.
    + intros k Hk.
      repeat (apply elem_of_cons in Hk as [->|Hk]; [vm_compute; eauto|]).
      now apply elem_of_nil in Hk.
    + reflexivity.
Defined.

End ValidateConfig.

Section LockTableRuns.
Import VFSBookingBot.

Lemma get_booking_lock_keeps (slot_id s : string) (l : nat) (t : LockTable) :
  booking_locks t !! s = Some l ->
  booking_locks (get_booking_lock slot_id t).2 !! s = Some l.
Proof.
  intros Hs. destruct (decide (slot_id = s)) as [->|Hne].
  - unfold get_booking_lock. rewrite bool_decide_eq_false_2 by congruence. exact Hs.
  - now rewrite get_booking_lock_other.
Qed.

Lemma get_booking_lock_present (slot_id : string) (t : LockTable) :
  is_Some (booking_locks (get_booking_lock slot_id t).2 !! slot_id).
Proof.
  pose proof (get_booking_lock_again slot_id t) as H.
  unfold get_booking_lock in *. simpl in *. apply H.
Qed.

(** X19.  Over any run of [get_booking_lock] calls the lock table only
    grows: a lock, once stored for a slot id, stays stored for it (it is
    neither replaced nor removed), every slot id asked for has a lock at
    the end, and no lock ever serves two slot ids. *)
Theorem booking_locks_only_grow (slot_ids : list string) (t : LockTable) :
  well_formed t ->
  let t' := get_booking_locks slot_ids t in
  well_formed t' /\
  (forall s l, booking_locks t !! s = Some l -> booking_locks t' !! s = Some l) /\
  (forall s, s ∈ slot_ids -> is_Some (booking_locks t' !! s)).
Proof.
  revert t. induction slot_ids as [|slot_id slot_ids IH]; intros t Hwf.
  - simpl. split; [exact Hwf|]. split; [auto|]. intros s Hs. now apply elem_of_nil in Hs.
  - unfold get_booking_locks in *. simpl.
    destruct (IH (get_booking_lock slot_id t).2) as (Hwf' & Hkeep & Hall);
      [now apply get_booking_lock_well_formed|].
    split; [exact Hwf'|]. split.
    + intros s l Hs. apply Hkeep. now apply get_booking_lock_keeps.
    + intros s Hs. apply elem_of_cons in Hs as [->|Hs]; [|now apply Hall].
      destruct (get_booking_lock_present slot_id t) as [l Hl].
      exists l. apply Hkeep. exact Hl.
Qed.

Lemma booking_locks_only_grow_witness :
  let t' := get_booking_locks ["slot-1"; "slot-2"; "slot-1"]%string (mkTable ∅ 0) in
  well_formed t' /\ is_Some (booking_locks t' !! "slot-2"%string).
Proof.
  destruct (booking_locks_only_grow ["slot-1"; "slot-2"; "slot-1"]%string (mkTable ∅ 0))
    as (Hwf & _ & Hall).
  - split; simpl; intros *; rewrite lookup_empty; discriminate.
  - split; [exact Hwf|]. apply Hall. right. left.
Defined.

End LockTableRuns.

(** ** Booking statistics *)
Section BookingStatistics.
Import BookingManager.

Lemma book_slot_stats_run (endings : list booking_end) :
  let s := foldl book_slot_stats new_stats endings in
  total_attempts s = Z.of_nat (length endings) /\
  successful_bookings s = Z.of_nat (length (List.filter (fun e => match e with Confirmed => true | _ => false end) endings)) /\
  failed_bookings s = Z.of_nat (length (List.filter (fun e => match e with Failed => true | _ => false end) endings)) /\
  successful_bookings s + failed_bookings s
  + Z.of_nat (length (List.filter (fun e => match e with Cancelled => true | _ => false end) endings))
  = total_attempts s.
Proof.
  induction endings as [|e endings IH] using rev_ind; [simpl; auto|].
  rewrite foldl_app. simpl. simpl in IH. destruct IH as (Ht & Hs & Hf & Hsum).
  rewrite !List.filter_app, !length_app, !Nat2Z.inj_add.
  destruct e; simpl; repeat split; lia.
Qed.

(** X20.  Starting from the zeroed statistics, after any number of
    [_book_slot] runs [total_attempts] is the number of runs and the
    confirmed and the failed runs are counted separately; successes and
    failures add up to the total exactly when no run was cancelled, and
    never exceed it.  The success rate is 0 before the first attempt
    (nothing is divided by zero) and always lies between 0 and 100. *)
Theorem booking_stats_consistent (endings : list booking_end) :
  let s := foldl book_slot_stats new_stats endings in
  total_attempts s = Z.of_nat (length endings) /\
  0 <= successful_bookings s /\ 0 <= failed_bookings s /\
  successful_bookings s + failed_bookings s <= total_attempts s /\
  (successful_bookings s + failed_bookings s = total_attempts s <-> Cancelled ∉ endings) /\
  (0 <= success_rate s)%Q /\ (success_rate s <= 100)%Q /\
  (endings = [] -> success_rate s = 0%Q).
Proof.
  intros s. destruct (book_slot_stats_run endings) as (Ht & Hs & Hf & Hsum).
  fold s in Ht, Hs, Hf, Hsum.
  split; [exact Ht|]. split; [lia|]. split; [lia|]. split; [lia|]. split; [|split; [|split]].
  - assert (length (List.filter (fun e => match e with Cancelled => true | _ => false end)
                      endings) = 0%nat <-> Cancelled ∉ endings) as Hc.
    { clear. induction endings as [|e endings IH]; simpl.
      - split; [intros _ H; now apply elem_of_nil in H|reflexivity].
      - rewrite not_elem_of_cons, <- IH. destruct e; simpl.
        + split; [intros H; split; [discriminate|exact H]|intros [_ H]; exact H].
        + split; [intros H; split; [discriminate|exact H]|intros [_ H]; exact H].
        + split; [discriminate|intros [H _]; congruence]. }
    rewrite <- Hc. lia.
  - unfold success_rate. destruct (Z.ltb_spec 0 (total_attempts s)); [|lra].
    assert (0 <= inject_Z (successful_bookings s))%Q as H1
      by (change 0%Q with (inject_Z 0); rewrite <- Zle_Qle; lia).
    assert (0 < inject_Z (total_attempts s))%Q as H2
      by (change 0%Q with (inject_Z 0); rewrite <- Zlt_Qlt; lia).
    apply Qmult_le_0_compat; [|lra]. apply Qle_shift_div_l; lra.
  - unfold success_rate. destruct (Z.ltb_spec 0 (total_attempts s)); [|lra].
    assert (inject_Z (successful_bookings s) <= inject_Z (total_attempts s))%Q as H1
      by (rewrite <- Zle_Qle; lia).
    assert (0 < inject_Z (total_attempts s))%Q as H2
      by (change 0%Q with (inject_Z 0); rewrite <- Zlt_Qlt; lia).
    assert (inject_Z (successful_bookings s) / inject_Z (total_attempts s) <= 1)%Q as H3
      by (apply Qle_shift_div_r; lra).
    lra.
  - intros ->. reflexivity.
Qed.

End BookingStatistics.

(** ** Ranking and validation together *)
Section RankingComposes.
Context {A K : Type} (key : A -> K) (lt : K -> K -> bool).
Hypothesis lt_asym : forall a b, lt a b = true -> lt b a = false.
Hypothesis lt_cotrans : forall a b c, lt a c = true -> lt a b = true \/ lt b c = true.

Lemma insort_front (x : A) (l : list A) :
  Forall (not_after key lt x) l -> insort key lt x l = x :: l.
Proof.
  intros Hall. destruct l as [|y l]; [reflexivity|]. simpl.
  apply Forall_cons in Hall as [Hy _]. unfold not_after in Hy. now rewrite Hy.
Qed.

Lemma sorted_fixpoint (l : list A) :
  StronglySorted (not_after key lt) l -> sorted key lt l = l.
Proof.
  induction 1 as [|x l Hl IH Hx]; [reflexivity|].
  simpl. rewrite IH. now apply insort_front.
Qed.

Lemma filter_insort (P : A -> Prop) `{forall a, Decision (P a)} (x : A) (l : list A) :
  StronglySorted (not_after key lt) l ->
  filter P (insort key lt x l)
  = if decide (P x) then insort key lt x (filter P l) else filter P l.
Proof.
  induction 1 as [|y l Hl IH Hy]; simpl.
  - rewrite filter_cons, filter_nil. destruct (decide (P x)); reflexivity.
  - destruct (lt (key y) (key x)) eqn:E.
    + rewrite !filter_cons, IH.
      destruct (decide (P y)), (decide (P x)); simpl; rewrite ?E; reflexivity.
    + assert (Forall (not_after key lt x) (y :: l)) as Hfront.
      { constructor; [exact E|]. eapply Forall_impl; [exact Hy|].
        unfold not_after. intros z Hz.
        destruct (lt (key z) (key x)) eqn:Ez; [|reflexivity].
        destruct (lt_cotrans _ (key y) _ Ez); congruence. }
      rewrite (filter_cons _ x). destruct (decide (P x)); [|reflexivity].
      symmetry. apply insort_front.
      apply Forall_forall. intros z Hz. apply list_elem_of_filter in Hz as [_ Hz].
      rewrite Forall_forall in Hfront. now apply Hfront.
Qed.

Lemma filter_sorted (P : A -> Prop) `{forall a, Decision (P a)} (l : list A) :
  filter P (sorted key lt l) = sorted key lt (filter P l).
Proof.
  induction l as [|x l IH]; [reflexivity|].
  simpl. rewrite filter_insort by now apply sorted_sorted.
  rewrite filter_cons. destruct (decide (P x)); simpl; now rewrite IH.
Qed.
End RankingComposes.

Section RankingIdempotent.
Import PriorityManager.

(** X21.  Ranking a ranked list changes nothing, and at one instant it does
    not matter whether slots are validated before or after they are
    ranked: both orders give the same list. *)
Theorem ranking_composes (now : Z) (slots : list Slot) :
  apply_prioritization_strategy (apply_prioritization_strategy slots)
  = apply_prioritization_strategy slots /\
  validate_slots (fun _ => now) (apply_prioritization_strategy slots)
  = apply_prioritization_strategy (validate_slots (fun _ => now) slots).
Proof.
  unfold apply_prioritization_strategy, validate_slots. split.
  - apply sorted_fixpoint, sorted_sorted; [exact tuple_lt_asym|exact tuple_lt_cotrans].
  - rewrite !validate_loop_frozen.
    apply filter_sorted; [exact tuple_lt_asym|exact tuple_lt_cotrans].
Qed.

End RankingIdempotent.

(** ** A breaker that opens during a run *)
Section RetryBreakerOpens.
Import RetryManager.
Context {V : Type}.
Variable env : Env (V := V).
Variable operation_name : string.
Variable retry_options : RetryOptions.

Local Abbreviation max := (max_retries retry_options).
Local Abbreviation loop := (retry_loop env operation_name retry_options).
Local Abbreviation circuit_open :=
  (RetryError "Circuit breaker is open"
     (Some (OtherException "Exception" "Circuit breaker open"))).






End RetryBreakerOpens.

Section RetryBreakerOpensWitness.
Import RetryManager.


End RetryBreakerOpensWitness.

Section BookingStatisticsWitness.
Import BookingManager.

(** Before the first attempt the success rate is 0. *)
Lemma booking_stats_consistent_witness :
  total_attempts new_stats = 0 /\ success_rate new_stats = 0%Q.
Proof.
  destruct (booking_stats_consistent []) as (Htotal & _ & _ & _ & _ & _ & _ & Hrate).
  split; [exact Htotal|]. apply Hrate. reflexivity.
Defined.

End BookingStatisticsWitness.
